(** * MoeCall: the live-session hook, the setup screen and the lip-sync driver

    A shallow embedding of the parts of the application that carry state:

    - [GeminiLive]: the hook [useGeminiLive] (hooks/useGeminiLive.ts): its
      React state, its refs, the teardown [cleanup], [retry], the effect that
      runs [initSession], and the session callbacks [onopen], [onmessage],
      [onclose], [onerror], the capture handler on [onaudioprocess] and the
      ['ended'] listener of a playback source;
    - [App]: [handleStart] and [generateBackground] of App.tsx;
    - [Avatar]: the lip-sync block of the frame callback of
      components/Avatar.tsx.

    JavaScript numbers that carry time or volume are modelled as exact
    rationals ([Q]): the properties below are about order and about which
    branch is taken, not about rounding.  Browser objects (audio contexts,
    audio nodes, the session promise) are records holding the part of their
    state the hook reads or writes. *)

From Stdlib Require Import QArith Qminmax Qround ZArith Lia Lqa String Ascii.
From stdpp Require Import base gmap sets list strings.

(** ** JavaScript truthiness of the values the code tests *)

(** A string is falsy exactly when it is empty. *)
Definition truthy (s : string) : bool :=
  match s with
  | EmptyString => false
  | String _ _ => true
  end.

(** [string | null] (and [string | undefined]): null is falsy too. *)
Definition truthy_opt (o : option string) : bool :=
  match o with
  | Some s => truthy s
  | None => false
  end.

(** [a || b] on strings. *)
Definition or_else (a b : string) : string :=
  if truthy a then a else b.

Module GeminiLive.

(** ** Browser objects *)

Inductive AudioContextState := suspended | running | closed.

#[export] Instance AudioContextState_eq_dec : EqDecision AudioContextState.
Proof. solve_decision. Defined.

Record AudioContext := {
  sampleRate : Z;
  state : AudioContextState
}.

(** Where an audio node's output is connected to. *)
Inductive AudioDest := ToDestination | ToAnalyser | ToProcessor | ToOutputNode.

Record MediaStreamAudioSourceNode := { ms_outputs : list AudioDest }.

Record ScriptProcessorNode := {
  bufferSize : Z;
  sp_outputs : list AudioDest;
  (** whether [onaudioprocess] holds the capture handler (it is the only
      value other than [null] ever assigned) *)
  onaudioprocess : bool
}.

Record GainNode := { gain_outputs : list AudioDest }.

Record AnalyserNode := { fftSize : Z }.

Record AudioBuffer := { duration : Q }.

(** One [source.start(t)] call: the source, the time it was told to start at
    and the duration of its buffer. *)
Record Scheduled := {
  source : nat;
  startAt : Q;
  length_s : Q
}.

Definition scheduledEnd (s : Scheduled) : Q := (startAt s + length_s s)%Q.

(** The value [createPcmBlob] returns and [sendRealtimeInput] receives. *)
Record Blob := { data : string; mimeType : string }.

(** The promise returned by [ai.live.connect]: pending, with the reactions
    registered by [then] in registration order (each one sends one blob), or
    fulfilled with the session.  A rejected promise runs no reaction and is
    left out. *)
Inductive SessionPromise :=
| Pending (reactions : list Blob)
| Fulfilled.

(** A thrown value; the code reads only [err.message]. *)
Record Exn := { name : string; message : string }.

(** The parameters of one [ai.live.connect] call. *)
Record LiveConnectParameters := {
  model : string;
  voiceName : string;
  systemInstruction_sent : string
}.

(** [msg.serverContent?.modelTurn?.parts?.[0]?.inlineData?.data] and
    [msg.serverContent?.interrupted] of a [LiveServerMessage]; an absent
    [interrupted] is falsy and reads as [false]. *)
Record LiveServerMessage := {
  inlineData : option string;
  interrupted : bool
}.

(** ** Props, React state, refs *)

Record Props := {
  apiKey : string;
  characterName : string;
  scenario : string;
  personality : string;
  isActive : bool;
  audioDeviceId : option string;
  (** whether the optional callback is passed; its effect is to store the
      reported boolean (App passes [setIsSpeaking]) *)
  onSpeakingChanged : bool
}.

#[export] Instance Props_eq_dec : EqDecision Props.
Proof. solve_decision. Defined.

(** The dependency list of the effect: the props and [retryCount]
    ([cleanup] is a stable [useCallback]). *)
Definition Deps : Type := Props * nat.

Record ReactState := {
  isConnected : bool;
  error : option string;
  retryCount : nat;
  (** React's bookkeeping for the effect: the dependencies of its last run
      and whether that run returned [cleanup] *)
  effectDeps : option Deps;
  effectCleanup : bool
}.

Record Refs := {
  audioContextRef : option AudioContext;
  inputAudioContextRef : option AudioContext;
  inputSourceRef : option MediaStreamAudioSourceNode;
  scriptProcessorRef : option ScriptProcessorNode;
  outputNodeRef : option GainNode;
  analyserRef : option AnalyserNode;
  nextStartTimeRef : Q;
  sessionPromiseRef : option SessionPromise;
  (** the [Set<AudioBufferSourceNode>], by object identity *)
  sourcesRef : gset nat
}.

(** What the hook does to the world outside it. *)
Record Platform := {
  (** the boolean last passed to [onSpeakingChanged] (App's [isSpeaking]) *)
  speaking : bool;
  (** number of buffer sources created so far; the next one gets this id *)
  created : nat;
  (** the [source.start] calls, oldest first *)
  playback : list Scheduled;
  (** the sources [stop()] was called on *)
  stopped : gset nat;
  (** the blobs given to [session.sendRealtimeInput], oldest first *)
  wire : list Blob;
  (** the [ai.live.connect] calls, oldest first *)
  connects : list LiveConnectParameters
}.

Record World := {
  react : ReactState;
  refs : Refs;
  platform : Platform
}.

Definition set_isConnected v (r : ReactState) : ReactState :=
  {| isConnected := v; error := error r; retryCount := retryCount r;
     effectDeps := effectDeps r; effectCleanup := effectCleanup r |}.

Definition set_error v (r : ReactState) : ReactState :=
  {| isConnected := isConnected r; error := v; retryCount := retryCount r;
     effectDeps := effectDeps r; effectCleanup := effectCleanup r |}.

Definition set_retryCount v (r : ReactState) : ReactState :=
  {| isConnected := isConnected r; error := error r; retryCount := v;
     effectDeps := effectDeps r; effectCleanup := effectCleanup r |}.

Definition set_effectDeps v (r : ReactState) : ReactState :=
  {| isConnected := isConnected r; error := error r;
     retryCount := retryCount r; effectDeps := v;
     effectCleanup := effectCleanup r |}.

Definition set_effectCleanup v (r : ReactState) : ReactState :=
  {| isConnected := isConnected r; error := error r;
     retryCount := retryCount r; effectDeps := effectDeps r;
     effectCleanup := v |}.

Definition set_audioContextRef v (r : Refs) : Refs :=
  {| audioContextRef := v; inputAudioContextRef := inputAudioContextRef r;
     inputSourceRef := inputSourceRef r;
     scriptProcessorRef := scriptProcessorRef r;
     outputNodeRef := outputNodeRef r; analyserRef := analyserRef r;
     nextStartTimeRef := nextStartTimeRef r;
     sessionPromiseRef := sessionPromiseRef r; sourcesRef := sourcesRef r |}.

Definition set_inputAudioContextRef v (r : Refs) : Refs :=
  {| audioContextRef := audioContextRef r; inputAudioContextRef := v;
     inputSourceRef := inputSourceRef r;
     scriptProcessorRef := scriptProcessorRef r;
     outputNodeRef := outputNodeRef r; analyserRef := analyserRef r;
     nextStartTimeRef := nextStartTimeRef r;
     sessionPromiseRef := sessionPromiseRef r; sourcesRef := sourcesRef r |}.

Definition set_inputSourceRef v (r : Refs) : Refs :=
  {| audioContextRef := audioContextRef r;
     inputAudioContextRef := inputAudioContextRef r; inputSourceRef := v;
     scriptProcessorRef := scriptProcessorRef r;
     outputNodeRef := outputNodeRef r; analyserRef := analyserRef r;
     nextStartTimeRef := nextStartTimeRef r;
     sessionPromiseRef := sessionPromiseRef r; sourcesRef := sourcesRef r |}.

Definition set_scriptProcessorRef v (r : Refs) : Refs :=
  {| audioContextRef := audioContextRef r;
     inputAudioContextRef := inputAudioContextRef r;
     inputSourceRef := inputSourceRef r; scriptProcessorRef := v;
     outputNodeRef := outputNodeRef r; analyserRef := analyserRef r;
     nextStartTimeRef := nextStartTimeRef r;
     sessionPromiseRef := sessionPromiseRef r; sourcesRef := sourcesRef r |}.

Definition set_outputNodeRef v (r : Refs) : Refs :=
  {| audioContextRef := audioContextRef r;
     inputAudioContextRef := inputAudioContextRef r;
     inputSourceRef := inputSourceRef r;
     scriptProcessorRef := scriptProcessorRef r; outputNodeRef := v;
     analyserRef := analyserRef r; nextStartTimeRef := nextStartTimeRef r;
     sessionPromiseRef := sessionPromiseRef r; sourcesRef := sourcesRef r |}.

Definition set_analyserRef v (r : Refs) : Refs :=
  {| audioContextRef := audioContextRef r;
     inputAudioContextRef := inputAudioContextRef r;
     inputSourceRef := inputSourceRef r;
     scriptProcessorRef := scriptProcessorRef r;
     outputNodeRef := outputNodeRef r; analyserRef := v;
     nextStartTimeRef := nextStartTimeRef r;
     sessionPromiseRef := sessionPromiseRef r; sourcesRef := sourcesRef r |}.

Definition set_nextStartTimeRef v (r : Refs) : Refs :=
  {| audioContextRef := audioContextRef r;
     inputAudioContextRef := inputAudioContextRef r;
     inputSourceRef := inputSourceRef r;
     scriptProcessorRef := scriptProcessorRef r;
     outputNodeRef := outputNodeRef r; analyserRef := analyserRef r;
     nextStartTimeRef := v; sessionPromiseRef := sessionPromiseRef r;
     sourcesRef := sourcesRef r |}.

Definition set_sessionPromiseRef v (r : Refs) : Refs :=
  {| audioContextRef := audioContextRef r;
     inputAudioContextRef := inputAudioContextRef r;
     inputSourceRef := inputSourceRef r;
     scriptProcessorRef := scriptProcessorRef r;
     outputNodeRef := outputNodeRef r; analyserRef := analyserRef r;
     nextStartTimeRef := nextStartTimeRef r; sessionPromiseRef := v;
     sourcesRef := sourcesRef r |}.

Definition set_sourcesRef v (r : Refs) : Refs :=
  {| audioContextRef := audioContextRef r;
     inputAudioContextRef := inputAudioContextRef r;
     inputSourceRef := inputSourceRef r;
     scriptProcessorRef := scriptProcessorRef r;
     outputNodeRef := outputNodeRef r; analyserRef := analyserRef r;
     nextStartTimeRef := nextStartTimeRef r;
     sessionPromiseRef := sessionPromiseRef r; sourcesRef := v |}.

Definition set_speaking v (r : Platform) : Platform :=
  {| speaking := v; created := created r; playback := playback r;
     stopped := stopped r; wire := wire r; connects := connects r |}.

Definition set_created v (r : Platform) : Platform :=
  {| speaking := speaking r; created := v; playback := playback r;
     stopped := stopped r; wire := wire r; connects := connects r |}.

Definition set_playback v (r : Platform) : Platform :=
  {| speaking := speaking r; created := created r; playback := v;
     stopped := stopped r; wire := wire r; connects := connects r |}.

Definition set_stopped v (r : Platform) : Platform :=
  {| speaking := speaking r; created := created r; playback := playback r;
     stopped := v; wire := wire r; connects := connects r |}.

Definition set_wire v (r : Platform) : Platform :=
  {| speaking := speaking r; created := created r; playback := playback r;
     stopped := stopped r; wire := v; connects := connects r |}.

Definition set_connects v (r : Platform) : Platform :=
  {| speaking := speaking r; created := created r; playback := playback r;
     stopped := stopped r; wire := wire r; connects := v |}.

Definition on_react (f : ReactState -> ReactState) (w : World) : World :=
  {| react := f (react w); refs := refs w; platform := platform w |}.

Definition on_refs (f : Refs -> Refs) (w : World) : World :=
  {| react := react w; refs := f (refs w); platform := platform w |}.

Definition on_platform (f : Platform -> Platform) (w : World) : World :=
  {| react := react w; refs := refs w; platform := f (platform w) |}.

(** The hook as first rendered: [useState] and [useRef] initial values. *)
Definition initial : World :=
  {| react := {| isConnected := false; error := None; retryCount := 0;
                 effectDeps := None; effectCleanup := false |};
     refs := {| audioContextRef := None; inputAudioContextRef := None;
                inputSourceRef := None; scriptProcessorRef := None;
                outputNodeRef := None; analyserRef := None;
                nextStartTimeRef := 0; sessionPromiseRef := None;
                sourcesRef := ∅ |};
     platform := {| speaking := false; created := 0; playback := [];
                    stopped := ∅; wire := []; connects := [] |} |}.

(** ** A state monad with exceptions *)

Inductive Res (A : Type) :=
| Ok (a : A)
| Throw (e : Exn).
Arguments Ok {A} a.
Arguments Throw {A} e.

Definition M (A : Type) : Type := World -> Res A * World.

Definition ret {A} (a : A) : M A := fun w => (Ok a, w).

Definition bind {A B} (m : M A) (k : A -> M B) : M B :=
  fun w =>
    match m w with
    | (Ok a, w') => k a w'
    | (Throw e, w') => (Throw e, w')
    end.

Definition throw {A} (e : Exn) : M A := fun w => (Throw e, w).

Definition lift {A} (r : Res A) : M A := fun w => (r, w).

Definition gets {A} (f : World -> A) : M A := fun w => (Ok (f w), w).

Definition modify (f : World -> World) : M unit := fun w => (Ok tt, f w).

Definition when (b : bool) (m : M unit) : M unit := if b then m else ret tt.

(** [try { m } catch (err) { h err }] *)
Definition try_catch (m : M unit) (h : Exn -> M unit) : M unit :=
  fun w =>
    match m w with
    | (Ok a, w') => (Ok a, w')
    | (Throw e, w') => h e w'
    end.

(** The state a computation leaves, also when it throws. *)
Definition exec {A} (m : M A) (w : World) : World := snd (m w).

Declare Scope hook_scope.
Delimit Scope hook_scope with hook.
Notation "x <- c1 ;; c2" := (bind c1 (fun x => c2))
  (at level 100, c1 at next level, right associativity) : hook_scope.
Notation "c1 ;; c2" := (bind c1 (fun _ => c2))
  (at level 100, right associativity) : hook_scope.
Local Open Scope hook_scope.

(** ** Browser operations *)

(** [node.disconnect()] without arguments removes every outgoing
    connection and does not throw. *)
Definition disconnect_processor (n : ScriptProcessorNode) : ScriptProcessorNode :=
  {| bufferSize := bufferSize n; sp_outputs := []; onaudioprocess := onaudioprocess n |}.

Definition set_onaudioprocess (h : bool) (n : ScriptProcessorNode) : ScriptProcessorNode :=
  {| bufferSize := bufferSize n; sp_outputs := sp_outputs n; onaudioprocess := h |}.

Definition connect_processor (d : AudioDest) (n : ScriptProcessorNode) : ScriptProcessorNode :=
  {| bufferSize := bufferSize n; sp_outputs := sp_outputs n ++ [d];
     onaudioprocess := onaudioprocess n |}.

Definition connect_input (d : AudioDest) (n : MediaStreamAudioSourceNode) :
  MediaStreamAudioSourceNode :=
  {| ms_outputs := ms_outputs n ++ [d] |}.

(** [ctx.close()] on a context that is already closed fails with an
    [InvalidStateError]; otherwise the context becomes closed. *)
Definition AudioContext_close (c : AudioContext) : Res AudioContext :=
  match state c with
  | closed => Throw {| name := "InvalidStateError";
                       message := "Cannot close a closed AudioContext." |}
  | _ => Ok {| sampleRate := sampleRate c; state := closed |}
  end.

(** [source.stop()] on each member of the set; every member was started
    before it was added, so [stop] does not throw. *)
Definition stop_all (w : World) : World :=
  on_platform (fun pl => set_stopped (stopped pl ∪ sourcesRef (refs w)) pl) w.

(** ** The hook *)

(** [cleanup] *)
Definition cleanup : M unit :=
  sp <- gets (fun w => scriptProcessorRef (refs w)) ;;
  match sp with
  | Some n =>
      modify (on_refs (set_scriptProcessorRef
                         (Some (set_onaudioprocess false (disconnect_processor n)))))
  | None => ret tt
  end ;;
  src <- gets (fun w => inputSourceRef (refs w)) ;;
  match src with
  | Some _ => modify (on_refs (set_inputSourceRef (Some {| ms_outputs := [] |})))
  | None => ret tt
  end ;;
  out <- gets (fun w => outputNodeRef (refs w)) ;;
  match out with
  | Some _ => modify (on_refs (set_outputNodeRef (Some {| gain_outputs := [] |})))
  | None => ret tt
  end ;;
  modify stop_all ;;
  modify (on_refs (set_sourcesRef ∅)) ;;
  ctx <- gets (fun w => audioContextRef (refs w)) ;;
  match ctx with
  | Some c =>
      if decide (state c <> closed) then
        c' <- lift (AudioContext_close c) ;;
        modify (on_refs (set_audioContextRef (Some c')))
      else ret tt
  | None => ret tt
  end ;;
  ictx <- gets (fun w => inputAudioContextRef (refs w)) ;;
  match ictx with
  | Some c =>
      if decide (state c <> closed) then
        c' <- lift (AudioContext_close c) ;;
        modify (on_refs (set_inputAudioContextRef (Some c')))
      else ret tt
  | None => ret tt
  end ;;
  modify (on_react (set_isConnected false)).

(** [retry] *)
Definition retry : M unit :=
  modify (on_react (set_error None)) ;;
  modify (on_react (set_isConnected false)) ;;
  modify (on_react (fun r => set_retryCount (retryCount r + 1) r)).

(** *** Session setup *)

(** What the browser and the SDK answer during one run of [initSession]:
    [Some e] when the call throws (or its promise rejects with) [e]. *)
Record SetupEnv := {
  (** [new AudioContextClass({ sampleRate: 24000 })] *)
  env_outputContext : option Exn;
  (** [new AudioContextClass({ sampleRate: 16000 })] *)
  env_inputContext : option Exn;
  (** [navigator.mediaDevices.getUserMedia], by the requested device *)
  env_getUserMedia : option string -> option Exn;
  (** [new GoogleGenAI] and the synchronous part of [ai.live.connect] *)
  env_connect : option Exn
}.

Definition fails (o : option Exn) : M unit :=
  match o with
  | Some e => throw e
  | None => ret tt
  end.

(** A context is created running (or suspended until a user gesture): in
    either case not closed. *)
Definition new_AudioContext (o : option Exn) (rate : Z) : M AudioContext :=
  fails o ;; ret {| sampleRate := rate; state := running |}.

(** [audioDeviceId ? { deviceId: { exact: audioDeviceId } } : true] *)
Definition constraints (p : Props) : option string :=
  match audioDeviceId p with
  | Some d => if truthy d then Some d else None
  | None => None
  end.

Definition nl : string := String "010" EmptyString.
Definition dq : string := String "034" EmptyString.
Definition indent : string := "            ".

(** The template literal passed as [config.systemInstruction]. *)
Definition systemInstruction (p : Props) : string :=
  "You are " ++ or_else (characterName p) "a 3D avatar" ++ ". " ++ nl ++
  indent ++ "The current scenario is: " ++ dq ++ scenario p ++ dq ++ ". " ++ nl ++
  indent ++ "Your personality is: " ++ dq ++ personality p ++ dq ++ "." ++ nl ++
  indent ++ "Act appropriately for this scenario and personality. " ++ nl ++
  indent ++ "If the user is silent initially, introduce yourself and the situation confidently using your name ("
         ++ characterName p ++ "). " ++ nl ++
  indent ++ "Your voice should match the character's personality." ++ nl ++
  indent ++ "Keep responses concise and conversational.".

Definition connectParameters (p : Props) : LiveConnectParameters :=
  {| model := "gemini-2.5-flash-native-audio-preview-09-2025";
     voiceName := "Aoede";
     systemInstruction_sent := systemInstruction p |}.

(** The body of the [try] block of [initSession]. *)
Definition initSession_try (env : SetupEnv) (p : Props) : M unit :=
  audioCtx <- new_AudioContext (env_outputContext env) 24000 ;;
  modify (on_refs (set_audioContextRef (Some audioCtx))) ;;
  inputCtx <- new_AudioContext (env_inputContext env) 16000 ;;
  modify (on_refs (set_inputAudioContextRef (Some inputCtx))) ;;
  fails (env_getUserMedia env (constraints p)) ;;
  modify (on_refs (set_inputSourceRef (Some {| ms_outputs := [] |}))) ;;
  modify (on_refs (set_scriptProcessorRef
                     (Some {| bufferSize := 4096; sp_outputs := [];
                              onaudioprocess := false |}))) ;;
  modify (on_refs (set_outputNodeRef (Some {| gain_outputs := [ToDestination] |}))) ;;
  modify (on_refs (set_outputNodeRef
                     (Some {| gain_outputs := [ToDestination; ToAnalyser] |}))) ;;
  modify (on_refs (set_analyserRef (Some {| fftSize := 256 |}))) ;;
  fails (env_connect env) ;;
  modify (on_platform (fun pl => set_connects (connects pl ++ [connectParameters p]) pl)) ;;
  modify (on_refs (set_sessionPromiseRef (Some (Pending [])))).

(** [initSession]: the [catch] stores the message and logs. *)
Definition initSession (env : SetupEnv) (p : Props) : M unit :=
  try_catch (initSession_try env p)
            (fun err => modify (on_react (set_error (Some (message err))))).

(** The thrown value that reaches the [catch], if any. *)
Definition setupFault (env : SetupEnv) (p : Props) : option Exn :=
  match env_outputContext env with
  | Some e => Some e
  | None =>
      match env_inputContext env with
      | Some e => Some e
      | None =>
          match env_getUserMedia env (constraints p) with
          | Some e => Some e
          | None => env_connect env
          end
      end
  end.

(** *** The effect *)

(** The body of [useEffect]; the result tells whether it returned
    [cleanup]. *)
Definition effect (env : SetupEnv) (p : Props) : M bool :=
  if negb (isActive p) || negb (truthy (apiKey p)) then
    when (negb (isActive p)) cleanup ;; ret false
  else
    initSession env p ;; ret true.

(** React after a render with props [p]: when a dependency changed since
    the effect last ran (or it never ran), the cleanup the last run returned
    is called and the effect runs again. *)
Definition commit (env : SetupEnv) (p : Props) : M unit :=
  r <- gets react ;;
  let d : Deps := (p, retryCount r) in
  if decide (effectDeps r = Some d) then ret tt
  else
    when (effectCleanup r) cleanup ;;
    c <- effect env p ;;
    modify (on_react (fun r => set_effectCleanup c (set_effectDeps (Some d) r))).

(** *** Session callbacks *)

Section Callbacks.

(** The functions of utils/audioHelper, which is not among the sources:
    they are parameters.  The two decoding helpers may throw. *)
Variable createPcmBlob : list Q -> Blob.
Variable base64ToUint8Array : string -> Res (list Byte.byte).
Variable decodeAudioData : list Byte.byte -> Z -> Z -> Res AudioBuffer.

(** [sessionPromise.then(session => session.sendRealtimeInput(...))]:
    a reaction on a pending promise waits in registration order, one on a
    fulfilled promise runs next. *)
Definition sessionPromise_then (b : Blob) (w : World) : World :=
  match sessionPromiseRef (refs w) with
  | Some (Pending q) => on_refs (set_sessionPromiseRef (Some (Pending (q ++ [b])))) w
  | Some Fulfilled => on_platform (fun pl => set_wire (wire pl ++ [b]) pl) w
  | None => w
  end.

(** The promise of [ai.live.connect] fulfils: its reactions run in
    order. *)
Definition sessionPromise_fulfil (w : World) : World :=
  match sessionPromiseRef (refs w) with
  | Some (Pending q) =>
      on_refs (set_sessionPromiseRef (Some Fulfilled))
              (on_platform (fun pl => set_wire (wire pl ++ q) pl) w)
  | _ => w
  end.

(** The handler [onopen] assigns to [processor.onaudioprocess]. *)
Definition audioprocess_handler (inputData : list Q) : M unit :=
  let pcmBlob := createPcmBlob inputData in
  modify (sessionPromise_then pcmBlob).

(** [onopen]; [processor] and [inputSource] are the objects the refs
    hold. *)
Definition onopen : M unit :=
  modify (on_react (set_isConnected true)) ;;
  modify (on_refs (fun r => set_scriptProcessorRef
                    (option_map (set_onaudioprocess true) (scriptProcessorRef r)) r)) ;;
  modify (on_refs (fun r => set_inputSourceRef
                    (option_map (connect_input ToProcessor) (inputSourceRef r)) r)) ;;
  modify (on_refs (fun r => set_scriptProcessorRef
                    (option_map (connect_processor ToDestination) (scriptProcessorRef r)) r)).

Definition report (p : Props) (b : bool) : M unit :=
  when (onSpeakingChanged p) (modify (on_platform (set_speaking b))).

(** [onmessage], run from its call to the settling of its promise: the
    promise of [decodeAudioData] settles before another callback of the
    hook is dispatched.  [now] is [audioCtx.currentTime]. *)
Definition onmessage (p : Props) (now : Q) (msg : LiveServerMessage) : M unit :=
  match inlineData msg with
  | Some base64Audio =>
      if truthy base64Audio then
        report p true ;;
        audioData <- lift (base64ToUint8Array base64Audio) ;;
        modify (on_refs (fun r => set_nextStartTimeRef (Qmax (nextStartTimeRef r) now) r)) ;;
        audioBuffer <- lift (decodeAudioData audioData 24000 1) ;;
        source <- gets (fun w => created (platform w)) ;;
        modify (on_platform (fun pl => set_created (S (created pl)) pl)) ;;
        t <- gets (fun w => nextStartTimeRef (refs w)) ;;
        modify (on_platform (fun pl => set_playback
                  (playback pl ++ [{| source := source; startAt := t;
                                      length_s := duration audioBuffer |}]) pl)) ;;
        modify (on_refs (fun r => set_nextStartTimeRef
                  (nextStartTimeRef r + duration audioBuffer)%Q r)) ;;
        modify (on_refs (fun r => set_sourcesRef ({[ source ]} ∪ sourcesRef r) r))
      else ret tt
  | None => ret tt
  end ;;
  when (interrupted msg)
    (modify stop_all ;;
     modify (on_refs (set_sourcesRef ∅)) ;;
     modify (on_refs (set_nextStartTimeRef 0%Q)) ;;
     report p false).

(** The ['ended'] listener of the source [source]. *)
Definition onended (p : Props) (source : nat) : M unit :=
  modify (on_refs (fun r => set_sourcesRef (sourcesRef r ∖ {[ source ]}) r)) ;;
  n <- gets (fun w => size (sourcesRef (refs w))) ;;
  when (Nat.eqb n 0 && onSpeakingChanged p) (modify (on_platform (set_speaking false))).

Definition onclose : M unit := modify (on_react (set_isConnected false)).

Definition onerror : M unit :=
  modify (on_react (set_error (Some "Connection error occurred."))).

(** *** The hook as a machine driven by the browser and the SDK

    The events are those of one lifecycle: the callbacks act on the objects
    the refs hold. *)

Inductive Event :=
| EvOpen
| EvSessionReady
| EvAudioProcess (inputData : list Q)
| EvMessage (now : Q) (msg : LiveServerMessage)
| EvEnded (source : nat)
| EvClose
| EvError
| EvCleanup.

Definition handlerInstalled (w : World) : bool :=
  match scriptProcessorRef (refs w) with
  | Some n => onaudioprocess n
  | None => false
  end.

Definition step (p : Props) (ev : Event) : M unit :=
  match ev with
  | EvOpen => onopen
  | EvSessionReady => modify sessionPromise_fulfil
  | EvAudioProcess inputData =>
      h <- gets handlerInstalled ;;
      when h (audioprocess_handler inputData)
  | EvMessage now msg => onmessage p now msg
  | EvEnded source => onended p source
  | EvClose => onclose
  | EvError => onerror
  | EvCleanup => cleanup
  end.

(** A rejected [onmessage] is an unhandled rejection: what it wrote before
    stays, nothing else happens. *)
Definition run (p : Props) (evs : list Event) (w : World) : World :=
  fold_left (fun w ev => exec (step p ev) w) evs w.

End Callbacks.

End GeminiLive.

Module App.

(** ** The setup screen (App.tsx) *)

Inductive Step := setup | generating | call.

(** [AppState] of types.ts. *)
Record AppState := {
  step : Step;
  apiKey : string;
  characterName : string;
  scenario : string;
  personality : string;
  vrmUrl : option string;
  backgroundUrl : option string
}.

Inductive BgMode := upload | generate.

(** The [useState] cells of [App], and the image requests it has issued
    ([ai.models.generateContent], by prompt, oldest first). *)
Record World := {
  state : AppState;
  bgMode : BgMode;
  micOn : bool;
  isSpeaking : bool;
  selectedVideoDevice : string;
  selectedAudioDevice : string;
  showSettings : bool;
  expressionFactor : Q;
  requests : list string
}.

(** [setState(prev => ({ ...prev, step: s }))] *)
Definition set_step (s : Step) (w : World) : World :=
  {| state := {| step := s; apiKey := apiKey (state w);
                 characterName := characterName (state w);
                 scenario := scenario (state w);
                 personality := personality (state w);
                 vrmUrl := vrmUrl (state w);
                 backgroundUrl := backgroundUrl (state w) |};
     bgMode := bgMode w; micOn := micOn w; isSpeaking := isSpeaking w;
     selectedVideoDevice := selectedVideoDevice w;
     selectedAudioDevice := selectedAudioDevice w;
     showSettings := showSettings w; expressionFactor := expressionFactor w;
     requests := requests w |}.

Definition set_backgroundUrl (u : option string) (w : World) : World :=
  {| state := {| step := step (state w); apiKey := apiKey (state w);
                 characterName := characterName (state w);
                 scenario := scenario (state w);
                 personality := personality (state w);
                 vrmUrl := vrmUrl (state w);
                 backgroundUrl := u |};
     bgMode := bgMode w; micOn := micOn w; isSpeaking := isSpeaking w;
     selectedVideoDevice := selectedVideoDevice w;
     selectedAudioDevice := selectedAudioDevice w;
     showSettings := showSettings w; expressionFactor := expressionFactor w;
     requests := requests w |}.

Definition request (prompt : string) (w : World) : World :=
  {| state := state w;
     bgMode := bgMode w; micOn := micOn w; isSpeaking := isSpeaking w;
     selectedVideoDevice := selectedVideoDevice w;
     selectedAudioDevice := selectedAudioDevice w;
     showSettings := showSettings w; expressionFactor := expressionFactor w;
     requests := requests w ++ [prompt] |}.

Definition backgroundPrompt (scenario : string) : string :=
  "High quality anime style background art, vivid colors, highly detailed, 4k. Scenario: "
  ++ scenario ++ ". No people, only scenery, cinematic lighting.".

(** [generateBackground], up to its [await]: the guard, the transition to
    ['generating'] and the request. *)
Definition generateBackground (w : World) : World :=
  if negb (truthy (scenario (state w))) || negb (truthy (apiKey (state w))) then w
  else request (backgroundPrompt (scenario (state w))) (set_step generating w).

(** [generateBackground] after its [await]: [Some (Some d)] is a response
    whose first part carries inline data [d], [Some None] a response
    without, [None] a thrown error. *)
Definition generateBackground_settled (r : option (option string)) (w : World) : World :=
  match r with
  | Some (Some d) => set_step call (set_backgroundUrl (Some ("data:image/jpeg;base64," ++ d)%string) w)
  | Some None => set_step setup w
  | None => set_step setup w
  end.

(** [handleStart] *)
Definition handleStart (w : World) : World :=
  if negb (truthy_opt (vrmUrl (state w))) || negb (truthy (scenario (state w)))
     || negb (truthy (apiKey (state w)))
  then w
  else
    match bgMode w with
    | generate => generateBackground w
    | upload => set_step call w
    end.

(** The [disabled] attribute of the Start Call button. *)
Definition startDisabled (w : World) : bool :=
  negb (truthy_opt (vrmUrl (state w))) || negb (truthy (scenario (state w)))
  || negb (truthy (apiKey (state w)))
  || match step (state w) with generating => true | _ => false end.

End App.

Module Avatar.

(** ** The lip-sync block of the frame callback (components/Avatar.tsx) *)

(** What the block reads from the [AnalyserNode]: the bytes
    [getByteFrequencyData] writes, one per frequency bin. *)
Record AnalyserNode := { byteFrequencyData : list Byte.byte }.

Definition frequencyBinCount (a : AnalyserNode) : Z :=
  Z.of_nat (length (byteFrequencyData a)).

(** [dataArray[i]] of a [Uint8Array]. *)
Definition at_index (dataArray : list Byte.byte) (i : nat) : Z :=
  match dataArray !! i with
  | Some b => Z.of_N (Byte.to_N b)
  | None => 0
  end.

(** [for (let i = binStart; i < binEnd; i++) sum += dataArray[i]], with
    [count] iterations left. *)
Fixpoint sumBins (dataArray : list Byte.byte) (i count : nat) (sum : Z) : Z :=
  match count with
  | O => sum
  | S count' => sumBins dataArray (S i) count' (sum + at_index dataArray i)
  end.

Definition Qgt_bool (x y : Q) : bool := negb (Qle_bool x y).
Definition Qlt_bool (x y : Q) : bool := negb (Qle_bool y x).

(** [rawVolume * expressionFactor] *)
Definition volume (expressionFactor : Q) (analyser : AnalyserNode) : Q :=
  let dataArray := byteFrequencyData analyser in
  let binStart := Qfloor (inject_Z (frequencyBinCount analyser) * (1 # 10)) in
  let binEnd := Qfloor (inject_Z (frequencyBinCount analyser) * (1 # 2)) in
  let sum := sumBins dataArray (Z.to_nat binStart) (Z.to_nat (binEnd - binStart)) 0 in
  let average := (inject_Z sum / inject_Z (binEnd - binStart))%Q in
  let rawVolume := Qmin 1 (average / 100) in
  (rawVolume * expressionFactor)%Q.

(** The weights last given to [expressionManager.setValue], by name. *)
Definition resetVowels (m : gmap string Q) : gmap string Q :=
  <["oh" := 0%Q]> (<["ee" := 0%Q]> (<["ou" := 0%Q]> (<["ih" := 0%Q]> (<["aa" := 0%Q]> m)))).

Section LipSync.

(** [Math.sin] *)
Variable sin : Q -> Q.

Definition lipSync (time expressionFactor : Q) (analyser : AnalyserNode)
    (m : gmap string Q) : gmap string Q :=
  let volume := volume expressionFactor analyser in
  let m := resetVowels m in
  if Qgt_bool volume (1 # 20) then
    let openness := Qmin 1 (volume * (3 # 2)) in
    let m := <["aa" := openness]> m in
    let wobble := sin (time * 20) in
    if Qgt_bool wobble (1 # 2) then <["oh" := (openness * (1 # 2))%Q]> m
    else if Qlt_bool wobble (- (1 # 2)) then <["ih" := (openness * (3 # 10))%Q]> m
    else m
  else m.

(** The guard around the block: it runs when there is an analyser and the
    model has an expression manager. *)
Definition frame_lipSync (time expressionFactor : Q) (analyser : option AnalyserNode)
    (expressionManager : option (gmap string Q)) : option (gmap string Q) :=
  match analyser, expressionManager with
  | Some a, Some m => Some (lipSync time expressionFactor a m)
  | _, _ => expressionManager
  end.

End LipSync.

End Avatar.

(** * Properties *)

Lemma truthy_false (s : string) : truthy s = false <-> s = EmptyString.
Proof. destruct s; simpl; split; congruence. Qed.

Lemma truthy_true (s : string) : truthy s = true <-> s <> EmptyString.
Proof. destruct s; simpl; split; congruence. Qed.

Module GeminiLiveFacts.
Import GeminiLive.
Local Open Scope hook_scope.

(** ** Teardown *)

Definition closed_context (c : AudioContext) : AudioContext :=
  {| sampleRate := sampleRate c; state := closed |}.

(** The world [cleanup] leaves, in closed form. *)
Definition torn_down (w : World) : World :=
  {| react := set_isConnected false (react w);
     refs :=
       {| audioContextRef := option_map closed_context (audioContextRef (refs w));
          inputAudioContextRef := option_map closed_context (inputAudioContextRef (refs w));
          inputSourceRef := option_map (fun _ => {| ms_outputs := [] |}) (inputSourceRef (refs w));
          scriptProcessorRef :=
            option_map (fun n => set_onaudioprocess false (disconnect_processor n))
                       (scriptProcessorRef (refs w));
          outputNodeRef := option_map (fun _ => {| gain_outputs := [] |}) (outputNodeRef (refs w));
          analyserRef := analyserRef (refs w);
          nextStartTimeRef := nextStartTimeRef (refs w);
          sessionPromiseRef := sessionPromiseRef (refs w);
          sourcesRef := ∅ |};
     platform := set_stopped (stopped (platform w) ∪ sourcesRef (refs w)) (platform w) |}.

Lemma cleanup_torn_down (w : World) : cleanup w = (Ok tt, torn_down w).
Proof.
  destruct w as [r [a i s sp o an t pr srcs] pl].
  unfold cleanup, torn_down, bind, gets, modify, lift, ret, on_refs, on_react,
    on_platform, stop_all; simpl.
  destruct sp as [n|], s as [n'|], o as [g|]; simpl;
    destruct a as [[ra [| |]]|], i as [[ri [| |]]|]; simpl; reflexivity.
Qed.





(** ** Playback *)

Definition back_to_back (l : list Scheduled) : Prop :=
  forall i a b, l !! i = Some a -> l !! S i = Some b ->
                (scheduledEnd a <= startAt b)%Q.

Lemma back_to_back_cons (x : Scheduled) (l : list Scheduled) :
  back_to_back l ->
  (forall e, head l = Some e -> (scheduledEnd x <= startAt e)%Q) ->
  back_to_back (x :: l).
Proof.
  intros Hl Hx [|i] a b Ha Hb; simpl in *.
  - inversion Ha; subst. apply Hx. destruct l; simpl in *; congruence.
  - eauto.
Qed.

Section Playback.

Variable createPcmBlob : list Q -> Blob.
Variable base64ToUint8Array : string -> Res (list Byte.byte).
Variable decodeAudioData : list Byte.byte -> Z -> Z -> Res AudioBuffer.

Abbreviation onmessage := (onmessage base64ToUint8Array decodeAudioData).
Abbreviation step := (step createPcmBlob base64ToUint8Array decodeAudioData).
Abbreviation run := (run createPcmBlob base64ToUint8Array decodeAudioData).

(** The buffer the two helpers make of an inline datum, when neither
    throws. *)
Definition decoded (base64Audio : string) : option AudioBuffer :=
  match base64ToUint8Array base64Audio with
  | Ok audioData =>
      match decodeAudioData audioData 24000 1 with
      | Ok audioBuffer => Some audioBuffer
      | Throw _ => None
      end
  | Throw _ => None
  end.

(** The handler reaches its end on [msg]: there is no audio to decode, or
    decoding does not throw. *)
Definition decodable (msg : LiveServerMessage) : bool :=
  match inlineData msg with
  | Some base64Audio =>
      if truthy base64Audio then bool_decide (is_Some (decoded base64Audio)) else true
  | None => true
  end.

(** The audio branch of [onmessage] when decoding succeeds. *)
Definition scheduled (p : Props) (now : Q) (audioBuffer : AudioBuffer) (w : World) : World :=
  let start := Qmax (nextStartTimeRef (refs w)) now in
  {| react := react w;
     refs := set_sourcesRef ({[ created (platform w) ]} ∪ sourcesRef (refs w))
               (set_nextStartTimeRef (start + duration audioBuffer)%Q (refs w));
     platform :=
       set_playback (playback (platform w) ++
                       [{| source := created (platform w); startAt := start;
                           length_s := duration audioBuffer |}])
         (set_created (S (created (platform w)))
            (if onSpeakingChanged p then set_speaking true (platform w)
             else platform w)) |}.

(** The interruption branch of [onmessage]. *)
Definition interrupt (p : Props) (w : World) : World :=
  {| react := react w;
     refs := set_nextStartTimeRef 0%Q (set_sourcesRef ∅ (refs w));
     platform :=
       (if onSpeakingChanged p
        then set_speaking false (set_stopped (stopped (platform w) ∪ sourcesRef (refs w))
                                             (platform w))
        else set_stopped (stopped (platform w) ∪ sourcesRef (refs w)) (platform w)) |}.

Lemma onmessage_audio (p : Props) (now : Q) (msg : LiveServerMessage)
    (base64Audio : string) (audioBuffer : AudioBuffer) (w : World) :
  inlineData msg = Some base64Audio ->
  truthy base64Audio = true ->
  decoded base64Audio = Some audioBuffer ->
  onmessage p now msg w =
    (Ok tt, if interrupted msg then interrupt p (scheduled p now audioBuffer w)
            else scheduled p now audioBuffer w).
Proof.
  intros Hd Ht Hdec. unfold decoded in Hdec.
  unfold GeminiLive.onmessage. rewrite Hd, Ht.
  destruct (base64ToUint8Array base64Audio) as [bytes|] eqn:Hb; [|discriminate].
  destruct (decodeAudioData bytes 24000 1) as [buf|] eqn:Hbuf; [|discriminate].
  inversion Hdec; subst buf.
  destruct w as [r rf pl]; destruct rf, pl.
  unfold bind, report, when, lift, gets, modify, ret, scheduled, interrupt, stop_all,
    on_refs, on_react, on_platform; simpl.
  destruct (onSpeakingChanged p); simpl; rewrite ?Hb; simpl; rewrite ?Hbuf; simpl;
    destruct (interrupted msg); simpl; reflexivity.
Qed.

Lemma onmessage_silent (p : Props) (now : Q) (msg : LiveServerMessage) (w : World) :
  truthy_opt (inlineData msg) = false ->
  onmessage p now msg w = (Ok tt, if interrupted msg then interrupt p w else w).
Proof.
  intros Hd. unfold GeminiLive.onmessage.
  assert (Hskip : match inlineData msg with
                  | Some s => truthy s = false
                  | None => True
                  end) by (destruct (inlineData msg); simpl in *; auto).
  destruct w as [r rf pl]; destruct rf, pl.
  destruct (inlineData msg) as [s|]; [rewrite Hskip|];
    unfold bind, report, when, lift, gets, modify, ret, interrupt, stop_all,
      on_refs, on_react, on_platform; simpl;
    destruct (interrupted msg), (onSpeakingChanged p); simpl; reflexivity.
Qed.

(** The schedule the specification describes for a run of fragments, each
    given by the clock reading when it arrives and by its decoded buffer:
    start at the later of the scheduled end and now, then advance the
    scheduled end by the duration. *)
Fixpoint plan (id : nat) (scheduledEnd : Q) (frs : list (Q * AudioBuffer)) :
    list Scheduled :=
  match frs with
  | [] => []
  | (now, audioBuffer) :: rest =>
      let start := Qmax scheduledEnd now in
      {| source := id; startAt := start; length_s := duration audioBuffer |}
        :: plan (S id) (start + duration audioBuffer)%Q rest
  end.

Fixpoint plan_end (scheduledEnd : Q) (frs : list (Q * AudioBuffer)) : Q :=
  match frs with
  | [] => scheduledEnd
  | (now, audioBuffer) :: rest =>
      plan_end (Qmax scheduledEnd now + duration audioBuffer)%Q rest
  end.

(** The audio fragment an event brings, if any: the clock reading at its
    arrival and its decoded buffer. *)
Definition fragment_of (ev : Event) : option (Q * AudioBuffer) :=
  match ev with
  | EvMessage now msg =>
      match inlineData msg with
      | Some base64Audio =>
          if truthy base64Audio then option_map (pair now) (decoded base64Audio)
          else None
      | None => None
      end
  | _ => None
  end.

Definition fragments (evs : list Event) : list (Q * AudioBuffer) :=
  omap fragment_of evs.

(** No interruption intervenes: a message of the run does not carry the
    signal, and its handler reaches its end. *)
Definition uninterrupted (ev : Event) : Prop :=
  match ev with
  | EvMessage _ msg => interrupted msg = false /\ decodable msg = true
  | _ => True
  end.

Lemma plan_back_to_back (frs : list (Q * AudioBuffer)) :
  forall id scheduledEnd, back_to_back (plan id scheduledEnd frs).
Proof.
  induction frs as [|[now buf] rest IH]; intros id t; simpl.
  - intros i a b Ha; destruct i; discriminate.
  - apply back_to_back_cons; [apply IH|].
    intros e He. destruct rest as [|[now' buf'] rest']; simpl in He; [discriminate|].
    inversion He; subst e; simpl. unfold scheduledEnd; simpl. apply Q.le_max_l.
Qed.

(** An event that brings a fragment schedules it. *)
Lemma step_fragment (p : Props) (ev : Event) (now : Q) (buf : AudioBuffer) (w : World) :
  uninterrupted ev ->
  fragment_of ev = Some (now, buf) ->
  let start := Qmax (nextStartTimeRef (refs w)) now in
  playback (platform (exec (step p ev) w)) =
    playback (platform w) ++
      [{| source := created (platform w); startAt := start; length_s := duration buf |}] /\
  created (platform (exec (step p ev) w)) = S (created (platform w)) /\
  nextStartTimeRef (refs (exec (step p ev) w)) = (start + duration buf)%Q.
Proof.
  intros Hu Hf. destruct ev; simpl in Hf; try discriminate.
  destruct Hu as [Hi _].
  destruct (inlineData msg) as [s|] eqn:Hs; [|discriminate].
  destruct (truthy s) eqn:Ht; [|discriminate].
  destruct (decoded s) as [buf'|] eqn:Hd; [|discriminate].
  inversion Hf; subst now0 buf'.
  unfold exec; simpl step.
  rewrite (onmessage_audio p now msg s buf w Hs Ht Hd), Hi; simpl.
  destruct w as [r rf pl]; destruct rf, pl; unfold scheduled; simpl.
  destruct (onSpeakingChanged p); simpl; auto.
Qed.

(** Any other event leaves the schedule, the clock and the count of
    sources alone. *)
Lemma step_no_fragment (p : Props) (ev : Event) (w : World) :
  uninterrupted ev ->
  fragment_of ev = None ->
  playback (platform (exec (step p ev) w)) = playback (platform w) /\
  created (platform (exec (step p ev) w)) = created (platform w) /\
  nextStartTimeRef (refs (exec (step p ev) w)) = nextStartTimeRef (refs w).
Proof.
  intros Hu Hf. destruct ev; simpl step.
  - destruct w as [r rf pl]; destruct rf, pl; auto.
  - destruct w as [r rf pl]; destruct rf, pl.
    unfold exec, modify, sessionPromise_fulfil; simpl.
    destruct sessionPromiseRef0 as [[q|]|]; auto.
  - destruct w as [r rf pl]; destruct rf, pl.
    unfold exec, bind, gets, when, audioprocess_handler, modify,
      handlerInstalled, sessionPromise_then; simpl.
    destruct scriptProcessorRef0 as [[b o []]|]; simpl;
      try destruct sessionPromiseRef0 as [[q|]|]; auto.
  - destruct Hu as [Hi Hd]. simpl in Hf. unfold decodable in Hd.
    assert (Hsilent : truthy_opt (inlineData msg) = false).
    { destruct (inlineData msg) as [s|]; simpl; [|reflexivity].
      destruct (truthy s); [|reflexivity].
      apply bool_decide_eq_true in Hd. destruct Hd as [buf Hbuf].
      rewrite Hbuf in Hf. discriminate. }
    unfold exec. rewrite (onmessage_silent p now msg w Hsilent), Hi. auto.
  - destruct w as [r rf pl]; destruct rf, pl.
    unfold exec, onended, bind, gets, modify, when, ret; simpl.
    destruct (_ && _); auto.
  - destruct w as [r rf pl]; destruct rf, pl; auto.
  - destruct w as [r rf pl]; destruct rf, pl; auto.
  - unfold exec. rewrite cleanup_torn_down.
    destruct w as [r rf pl]; destruct rf, pl; auto.
Qed.

Lemma run_schedule (p : Props) (evs : list Event) :
  forall w,
    Forall uninterrupted evs ->
    playback (platform (run p evs w)) =
      playback (platform w) ++
        plan (created (platform w)) (nextStartTimeRef (refs w)) (fragments evs) /\
    nextStartTimeRef (refs (run p evs w)) =
      plan_end (nextStartTimeRef (refs w)) (fragments evs).
Proof.
  induction evs as [|ev evs IH]; intros w Hall.
  - simpl. rewrite app_nil_r; auto.
  - inversion Hall as [|e l Hev Hrest]; subst.
    change (run p (ev :: evs) w) with (run p evs (exec (step p ev) w)).
    destruct (IH (exec (step p ev) w) Hrest) as [Hp Hc].
    rewrite Hp, Hc. unfold fragments. simpl omap.
    destruct (fragment_of ev) as [[now buf]|] eqn:Hf.
    + destruct (step_fragment p ev now buf w Hev Hf) as (H1 & H2 & H3).
      rewrite H1, H2, H3. simpl. rewrite <- app_assoc. auto.
    + destruct (step_no_fragment p ev w Hev Hf) as (H1 & H2 & H3).
      rewrite H1, H2, H3. auto.
Qed.

(** C1. For every run of the hook in which no interruption intervenes and
    every fragment decodes, whatever other events come between the
    fragments: the [source.start] calls made are those of [plan] for the
    fragments received, so each fragment starts at the later of the
    scheduled end and the clock reading and the scheduled end then advances
    by its duration; hence fragment i+1 never starts before the scheduled
    end of fragment i. *)
Theorem fragments_scheduled_back_to_back (p : Props) (evs : list Event) (w : World) :
  Forall uninterrupted evs ->
  let w' := run p evs w in
  let new := plan (created (platform w)) (nextStartTimeRef (refs w)) (fragments evs) in
  playback (platform w') = playback (platform w) ++ new /\
  nextStartTimeRef (refs w') = plan_end (nextStartTimeRef (refs w)) (fragments evs) /\
  forall i a b, new !! i = Some a -> new !! S i = Some b ->
                (startAt a + length_s a <= startAt b)%Q.
Proof.
  intros Hall w' new.
  destruct (run_schedule p evs w Hall) as [Hp Hc].
  repeat split; auto.
  apply plan_back_to_back.
Qed.

(** C2, as the code has it.  When [onmessage] receives a message that
    carries the interruption signal and reaches its end (the message has no
    audio, or audio that decodes), the active-buffer set is empty and the
    next start time is the literal zero, whatever the set and the clock were
    before; every source that was active has been stopped. *)
Theorem interruption_resets (p : Props) (now : Q) (msg : LiveServerMessage) (w : World) :
  interrupted msg = true ->
  decodable msg = true ->
  let w' := exec (onmessage p now msg) w in
  onmessage p now msg w = (Ok tt, w') /\
  sourcesRef (refs w') = ∅ /\
  nextStartTimeRef (refs w') = 0%Q /\
  sourcesRef (refs w) ⊆ stopped (platform w').
Proof.
  intros Hi Hd w'. subst w'. unfold exec.
  unfold decodable in Hd.
  destruct (inlineData msg) as [s|] eqn:Hs.
  - destruct (truthy s) eqn:Ht.
    + apply bool_decide_eq_true in Hd. destruct Hd as [buf Hbuf].
      rewrite (onmessage_audio p now msg s buf w Hs Ht Hbuf), Hi; simpl.
      destruct w as [r rf pl]; destruct rf, pl; unfold interrupt, scheduled; simpl.
      destruct (onSpeakingChanged p); simpl; repeat split; set_solver.
    + rewrite (onmessage_silent p now msg w), Hi; simpl.
      * destruct (onSpeakingChanged p); simpl; repeat split; set_solver.
      * rewrite Hs; simpl; exact Ht.
  - rewrite (onmessage_silent p now msg w), Hi; simpl.
    + destruct (onSpeakingChanged p); simpl; repeat split; set_solver.
    + rewrite Hs; reflexivity.
Qed.

(** *** The speaking signal *)










End Playback.

(** ** The outbound path *)

(** The capture buffers handed to the hook: those the processor delivers
    while a handler is installed on it, that is after [onopen] and until a
    teardown.  [installed] tells whether a handler is installed before
    [evs]. *)
Fixpoint handled (installed : bool) (evs : list Event) : list (list Q) :=
  match evs with
  | [] => []
  | EvOpen :: rest => handled true rest
  | EvCleanup :: rest => handled false rest
  | EvAudioProcess inputData :: rest =>
      if installed then inputData :: handled installed rest
      else handled installed rest
  | _ :: rest => handled installed rest
  end.

Definition reactions_of (pr : SessionPromise) : list Blob :=
  match pr with
  | Pending q => q
  | Fulfilled => []
  end.

Section Outbound.

Variable createPcmBlob : list Q -> Blob.
Variable base64ToUint8Array : string -> Res (list Byte.byte).
Variable decodeAudioData : list Byte.byte -> Z -> Z -> Res AudioBuffer.

Abbreviation onmessage' := (onmessage base64ToUint8Array decodeAudioData).
Abbreviation step' := (step createPcmBlob base64ToUint8Array decodeAudioData).
Abbreviation run' := (run createPcmBlob base64ToUint8Array decodeAudioData).

(** What one event adds to the buffers handed to the hook, and whether a
    handler is installed after it. *)
Definition captured (installed : bool) (ev : Event) : list (list Q) :=
  match ev with
  | EvAudioProcess inputData => if installed then [inputData] else []
  | _ => []
  end.

Definition installed_after (installed : bool) (ev : Event) : bool :=
  match ev with
  | EvOpen => true
  | EvCleanup => false
  | _ => installed
  end.

Lemma handled_cons (installed : bool) (ev : Event) (evs : list Event) :
  handled installed (ev :: evs) =
    captured installed ev ++ handled (installed_after installed ev) evs.
Proof. destruct ev, installed; reflexivity. Qed.

(** [onmessage] leaves the capture side alone, also when it throws. *)
Lemma onmessage_frame (p : Props) (now : Q) (msg : LiveServerMessage) (w : World) :
  let w' := exec (onmessage' p now msg) w in
  scriptProcessorRef (refs w') = scriptProcessorRef (refs w) /\
  sessionPromiseRef (refs w') = sessionPromiseRef (refs w) /\
  wire (platform w') = wire (platform w).
Proof.
  destruct w as [r rf pl]; destruct rf, pl.
  unfold exec, GeminiLive.onmessage, bind, report, when, lift, gets, modify, ret,
    stop_all, on_refs, on_react, on_platform; simpl.
  destruct (inlineData msg) as [s|]; [destruct (truthy s)|];
    destruct (onSpeakingChanged p), (interrupted msg); simpl;
    try destruct (base64ToUint8Array s) as [bytes|]; simpl;
    try destruct (decodeAudioData bytes 24000 1); simpl; auto.
Qed.

Ltac outbound_leaf :=
  repeat split; auto; try congruence;
  try (intros [?|?]; solve [assumption | discriminate | congruence]).

Lemma step_outbound (p : Props) (ev : Event) (w : World)
    (sp : ScriptProcessorNode) (pr : SessionPromise) :
  scriptProcessorRef (refs w) = Some sp ->
  sessionPromiseRef (refs w) = Some pr ->
  exists sp' pr' new,
    scriptProcessorRef (refs (exec (step' p ev) w)) = Some sp' /\
    sessionPromiseRef (refs (exec (step' p ev) w)) = Some pr' /\
    onaudioprocess sp' = installed_after (onaudioprocess sp) ev /\
    wire (platform (exec (step' p ev) w)) = wire (platform w) ++ new /\
    new ++ reactions_of pr' =
      reactions_of pr ++ map createPcmBlob (captured (onaudioprocess sp) ev) /\
    (pr' = Fulfilled <-> pr = Fulfilled \/ ev = EvSessionReady) /\
    (pr' <> Fulfilled -> new = []).
Proof.
  intros Hsp Hpr.
  destruct ev; simpl step.
  - (* onopen *)
    destruct w as [r rf pl]; destruct rf, pl; simpl in *; subst.
    exists (connect_processor ToDestination (set_onaudioprocess true sp)), pr, [].
    unfold exec; simpl. rewrite !app_nil_r.
    outbound_leaf.
  - (* the promise fulfils *)
    destruct w as [r rf pl]; destruct rf, pl; simpl in *; subst.
    unfold exec, modify, sessionPromise_fulfil; simpl.
    destruct pr as [q|]; simpl.
    + exists sp, Fulfilled, q. rewrite !app_nil_r. repeat split; auto; congruence.
    + exists sp, Fulfilled, []. rewrite !app_nil_r. repeat split; auto.
  - (* a capture buffer *)
    destruct w as [r rf pl]; destruct rf, pl; simpl in *; subst.
    unfold exec, bind, gets, when, handlerInstalled, audioprocess_handler, modify,
      sessionPromise_then; simpl.
    destruct (onaudioprocess sp) eqn:Hin; simpl.
    + destruct pr as [q|]; simpl.
      * exists sp, (Pending (q ++ [createPcmBlob inputData])), [].
        rewrite !app_nil_r. outbound_leaf.
      * exists sp, Fulfilled, [createPcmBlob inputData].
        repeat split; auto; congruence.
    + exists sp, pr, []. rewrite !app_nil_r.
      outbound_leaf.
  - (* onmessage *)
    destruct (onmessage_frame p now msg w) as (Hs & Hp & Hw).
    exists sp, pr, []. rewrite Hs, Hp, Hw, !app_nil_r.
    outbound_leaf.
  - (* ended *)
    destruct w as [r rf pl]; destruct rf, pl; simpl in *; subst.
    exists sp, pr, [].
    unfold exec, onended, bind, gets, modify, when, ret; simpl.
    destruct (_ && _); simpl; rewrite !app_nil_r;
      outbound_leaf.
  - (* onclose *)
    destruct w as [r rf pl]; destruct rf, pl; simpl in *; subst.
    exists sp, pr, []. unfold exec; simpl. rewrite !app_nil_r.
    outbound_leaf.
  - (* onerror *)
    destruct w as [r rf pl]; destruct rf, pl; simpl in *; subst.
    exists sp, pr, []. unfold exec; simpl. rewrite !app_nil_r.
    outbound_leaf.
  - (* cleanup *)
    unfold exec. rewrite cleanup_torn_down.
    destruct w as [r rf pl]; destruct rf, pl; simpl in *; subst.
    exists (set_onaudioprocess false (disconnect_processor sp)), pr, [].
    rewrite !app_nil_r.
    outbound_leaf.
Qed.

Lemma run_outbound (p : Props) (evs : list Event) :
  forall (w : World) (sp : ScriptProcessorNode) (pr : SessionPromise),
    scriptProcessorRef (refs w) = Some sp ->
    sessionPromiseRef (refs w) = Some pr ->
    exists pr' new,
      sessionPromiseRef (refs (run' p evs w)) = Some pr' /\
      wire (platform (run' p evs w)) = wire (platform w) ++ new /\
      new ++ reactions_of pr' =
        reactions_of pr ++ map createPcmBlob (handled (onaudioprocess sp) evs) /\
      (pr' = Fulfilled <-> pr = Fulfilled \/ In EvSessionReady evs) /\
      (pr' <> Fulfilled -> new = []).
Proof.
  induction evs as [|ev evs IH]; intros w sp pr Hsp Hpr.
  - exists pr, []. simpl. rewrite !app_nil_r. repeat split; auto.
    intros [H|[]]; exact H.
  - destruct (step_outbound p ev w sp pr Hsp Hpr)
      as (sp1 & pr1 & new1 & Hsp1 & Hpr1 & Hin1 & Hw1 & Hq1 & Hf1 & Hn1).
    destruct (IH _ sp1 pr1 Hsp1 Hpr1) as (pr2 & new2 & Hpr2 & Hw2 & Hq2 & Hf2 & Hn2).
    exists pr2, (new1 ++ new2).
    change (run' p (ev :: evs) w) with (run' p evs (exec (step' p ev) w)).
    rewrite Hin1 in Hq2. rewrite Hpr2, Hw2, Hw1, handled_cons, map_app.
    repeat split.
    + rewrite app_assoc. reflexivity.
    + rewrite <- app_assoc, Hq2, !app_assoc. f_equal. exact Hq1.
    + intros H. apply Hf2 in H. destruct H as [H|H]; [|right; right; exact H].
      apply Hf1 in H. destruct H as [H|H]; [left; exact H | right; left; auto].
    + intros H. apply Hf2. destruct H as [H|[H|H]].
      * left. apply Hf1. left. exact H.
      * left. apply Hf1. right. auto.
      * right. exact H.
    + intros Hnf. rewrite (Hn2 Hnf), app_nil_r. apply Hn1.
      intros H1. apply Hnf. apply Hf2. left. exact H1.
Qed.

Lemma handled_before_open (evs : list Event) :
  ~ In EvOpen evs -> handled false evs = [].
Proof.
  induction evs as [|ev evs IH]; intros Hno; [reflexivity|].
  assert (Hev : ev <> EvOpen) by (intros ->; apply Hno; left; reflexivity).
  assert (Hrest : ~ In EvOpen evs) by (intros H; apply Hno; right; exact H).
  destruct ev; simpl; auto; congruence.
Qed.

(** The world a setup that meets no fault leaves. *)
Definition set_up (p : Props) (w : World) : World :=
  {| react := react w;
     refs :=
       {| audioContextRef := Some {| sampleRate := 24000; state := running |};
          inputAudioContextRef := Some {| sampleRate := 16000; state := running |};
          inputSourceRef := Some {| ms_outputs := [] |};
          scriptProcessorRef :=
            Some {| bufferSize := 4096; sp_outputs := []; onaudioprocess := false |};
          outputNodeRef := Some {| gain_outputs := [ToDestination; ToAnalyser] |};
          analyserRef := Some {| fftSize := 256 |};
          nextStartTimeRef := nextStartTimeRef (refs w);
          sessionPromiseRef := Some (Pending []);
          sourcesRef := sourcesRef (refs w) |};
     platform :=
       set_connects (connects (platform w) ++ [connectParameters p]) (platform w) |}.

Lemma initSession_set_up (env : SetupEnv) (p : Props) (w : World) :
  setupFault env p = None ->
  initSession env p w = (Ok tt, set_up p w).
Proof.
  unfold setupFault. intros Hno.
  destruct (env_outputContext env) eqn:Ho; [discriminate|].
  destruct (env_inputContext env) eqn:Hi; [discriminate|].
  destruct (env_getUserMedia env (constraints p)) eqn:Hg; [discriminate|].
  destruct w as [r rf pl]; destruct rf, pl.
  unfold initSession, try_catch, initSession_try, new_AudioContext, fails, bind,
    throw, ret, modify, on_refs, on_platform, set_up; simpl.
  rewrite Ho, Hi, Hg, Hno; simpl. reflexivity.
Qed.

(** C3. In a call whose setup met no fault, whatever the browser and the
    SDK then do: as long as [onopen] has not been called nothing has been
    sent over the session, and as long as the session promise has not
    fulfilled nothing has been sent either; once it has fulfilled, what has
    been sent is exactly the buffers handed to the capture handler, each
    once, in the order they were captured. *)
Theorem outbound_forwarding_in_order (env : SetupEnv) (p : Props) (w : World)
    (evs : list Event) :
  setupFault env p = None ->
  let w' := run' p evs (exec (initSession env p) w) in
  (~ In EvOpen evs -> wire (platform w') = wire (platform w)) /\
  (~ In EvSessionReady evs -> wire (platform w') = wire (platform w)) /\
  (In EvSessionReady evs ->
   wire (platform w') =
     wire (platform w) ++ map createPcmBlob (handled false evs)).
Proof.
  intros Hno w'. subst w'. unfold exec.
  rewrite (initSession_set_up env p w Hno). simpl snd.
  destruct (run_outbound p evs (set_up p w) _ _ eq_refl eq_refl)
    as (pr' & new & Hpr & Hw & Hq & Hf & Hn).
  simpl in Hq.
  assert (Hwire : wire (platform (set_up p w)) = wire (platform w))
    by (destruct w as [r rf pl]; destruct pl; reflexivity).
  rewrite Hw, Hwire. repeat split.
  - intros Hopen. rewrite (handled_before_open evs Hopen) in Hq. simpl in Hq.
    apply app_eq_nil in Hq. destruct Hq as [-> _]. apply app_nil_r.
  - intros Hready. rewrite Hn, app_nil_r; [reflexivity|].
    intros Hful. apply Hf in Hful. destruct Hful as [H|H]; [discriminate | auto].
  - intros Hready.
    assert (Hful : pr' = Fulfilled) by (apply Hf; right; exact Hready).
    subst pr'. simpl in Hq. rewrite app_nil_r in Hq. rewrite Hq. reflexivity.
Qed.

End Outbound.

(** ** Setup failure, retry, the system instruction *)

Lemma initSession_returns (env : SetupEnv) (p : Props) (w : World) :
  initSession env p w = (Ok tt, exec (initSession env p) w).
Proof.
  destruct w as [r rf pl]; destruct rf, pl.
  unfold exec, initSession, try_catch, initSession_try, new_AudioContext, fails, bind,
    throw, ret, modify, on_refs, on_platform, on_react; simpl.
  destruct (env_outputContext env); simpl; [reflexivity|].
  destruct (env_inputContext env); simpl; [reflexivity|].
  destruct (env_getUserMedia env (constraints p)); simpl; [reflexivity|].
  destruct (env_connect env); simpl; reflexivity.
Qed.





Lemma append_assoc (a b c : string) : ((a ++ b) ++ c)%string = (a ++ (b ++ c))%string.
Proof.
  induction a as [|ch a IH]; [reflexivity|].
  change (String ch ((a ++ b) ++ c) = String ch (a ++ (b ++ c)))%string.
  f_equal; exact IH.
Qed.

(** C8. The system instruction given to [ai.live.connect] opens with
    "You are a 3D avatar. " when the character name is empty, and with
    "You are ", the name and ". " when it is not; a setup that meets no
    fault issues one connect call carrying it. *)
Theorem systemInstruction_opening (p : Props) :
  (characterName p = EmptyString ->
   exists rest, systemInstruction p = ("You are a 3D avatar. " ++ rest)%string) /\
  (characterName p <> EmptyString ->
   exists rest,
     systemInstruction p = (("You are " ++ characterName p ++ ". ") ++ rest)%string) /\
  (forall env w, setupFault env p = None ->
     connects (platform (exec (initSession env p) w)) =
       connects (platform w) ++
         [{| model := "gemini-2.5-flash-native-audio-preview-09-2025";
             voiceName := "Aoede";
             systemInstruction_sent := systemInstruction p |}]).
Proof.
  repeat split.
  - intros Hempty. unfold systemInstruction, or_else. rewrite Hempty. simpl.
    eexists. reflexivity.
  - intros Hname. unfold systemInstruction, or_else.
    apply truthy_true in Hname. rewrite Hname.
    eexists. rewrite !append_assoc. simpl. reflexivity.
  - intros env w Hno. unfold exec. rewrite (initSession_set_up env p w Hno).
    destruct w as [r rf pl]; destruct pl; reflexivity.
Qed.

End GeminiLiveFacts.

Module AppFacts.
Import App.

(** C9. When the model URL is null, or the scenario is empty, or the API
    key is empty, [handleStart] returns at its guard: the state is the one
    it was called in, with the step unchanged and no image request
    issued. *)
Theorem handleStart_guarded (w : World) :
  vrmUrl (state w) = None \/ scenario (state w) = EmptyString \/
  apiKey (state w) = EmptyString ->
  handleStart w = w.
Proof.
  intros [Hv|[Hs|Hk]]; unfold handleStart.
  - rewrite Hv; reflexivity.
  - rewrite Hs; simpl. rewrite orb_true_r; reflexivity.
  - rewrite Hk; simpl. rewrite orb_true_r; reflexivity.
Qed.

End AppFacts.

Module AvatarFacts.
Import Avatar.

Ltac lookup_vowel :=
  repeat first [ rewrite lookup_insert_eq | rewrite lookup_insert_ne by discriminate ].

Lemma resetVowels_zero (m : gmap string Q) :
  resetVowels m !! "aa" = Some 0%Q /\ resetVowels m !! "ih" = Some 0%Q /\
  resetVowels m !! "ou" = Some 0%Q /\ resetVowels m !! "ee" = Some 0%Q /\
  resetVowels m !! "oh" = Some 0%Q.
Proof. unfold resetVowels. repeat split; lookup_vowel; reflexivity. Qed.

Lemma Qgt_bool_true (x y : Q) : Qgt_bool x y = true <-> (y < x)%Q.
Proof.
  unfold Qgt_bool. rewrite negb_true_iff, <- not_true_iff_false, Qle_bool_iff.
  split; [apply Qnot_le_lt | apply Qlt_not_le].
Qed.

Lemma Qgt_bool_false (x y : Q) : Qgt_bool x y = false <-> (x <= y)%Q.
Proof. unfold Qgt_bool. rewrite negb_false_iff. apply Qle_bool_iff. Qed.

Section LipSync.

Variable sin : Q -> Q.

(** C10. On every frame on which the lip-sync block runs (there is an
    analyser and an expression manager), it first sets the five vowels to
    zero.  When the scaled volume is at most 0.05 that is all it does.
    Otherwise 'ou' and 'ee' stay zero, 'aa' gets the openness, which is
    positive and at most 1, and at most one of 'oh' and 'ih' is given a
    value other than zero, itself at most 1. *)
Theorem lipSync_vowels (time expressionFactor : Q) (analyser : AnalyserNode)
    (m : gmap string Q) :
  let v := volume expressionFactor analyser in
  let m' := lipSync sin time expressionFactor analyser m in
  frame_lipSync sin time expressionFactor (Some analyser) (Some m) = Some m' /\
  (resetVowels m !! "aa" = Some 0%Q /\ resetVowels m !! "ih" = Some 0%Q /\
   resetVowels m !! "ou" = Some 0%Q /\ resetVowels m !! "ee" = Some 0%Q /\
   resetVowels m !! "oh" = Some 0%Q) /\
  ((v <= 1 # 20)%Q -> m' = resetVowels m) /\
  ((1 # 20 < v)%Q ->
   m' !! "ou" = Some 0%Q /\ m' !! "ee" = Some 0%Q /\
   exists aa oh ih,
     m' !! "aa" = Some aa /\ m' !! "oh" = Some oh /\ m' !! "ih" = Some ih /\
     (0 < aa <= 1)%Q /\ (0 <= oh <= 1)%Q /\ (0 <= ih <= 1)%Q /\
     (oh = 0%Q \/ ih = 0%Q)).
Proof.
  intros v m'. split; [reflexivity|]. split; [apply resetVowels_zero|]. split.
  - intros Hle. subst m'. unfold lipSync. fold v.
    apply Qgt_bool_false in Hle. rewrite Hle. reflexivity.
  - intros Hgt. subst m'. unfold lipSync. fold v.
    apply Qgt_bool_true in Hgt as Hb. rewrite Hb.
    set (openness := Qmin 1 (v * (3 # 2))).
    assert (Hpos : (0 < openness)%Q).
    { unfold openness. apply Q.min_glb_lt; lra. }
    assert (Hone : (openness <= 1)%Q) by apply Q.le_min_l.
    unfold resetVowels.
    destruct (Qgt_bool (sin (time * 20)) (1 # 2));
      [|destruct (Qlt_bool (sin (time * 20)) (- (1 # 2)))].
    + split; [lookup_vowel; reflexivity|]. split; [lookup_vowel; reflexivity|].
      exists openness, (openness * (1 # 2))%Q, 0%Q.
      repeat split; lookup_vowel; auto; try lra.
    + split; [lookup_vowel; reflexivity|]. split; [lookup_vowel; reflexivity|].
      exists openness, 0%Q, (openness * (3 # 10))%Q.
      repeat split; lookup_vowel; auto; try lra.
    + split; [lookup_vowel; reflexivity|]. split; [lookup_vowel; reflexivity|].
      exists openness, 0%Q, 0%Q.
      repeat split; lookup_vowel; auto; try lra.
Qed.

End LipSync.

End AvatarFacts.

(** * The properties on concrete runs *)

Module Scenarios.
Import GeminiLive GeminiLiveFacts.

(** Stand-ins for the helpers of utils/audioHelper, to run the hook on
    concrete inputs: a blob holds one character per sample; the datum "!"
    is not base64; 16-bit mono audio at 24 kHz lasts one second per 48000
    bytes. *)
Definition demo_createPcmBlob (inputData : list Q) : Blob :=
  {| data := string_of_list_ascii (map (fun _ => "A"%char) inputData);
     mimeType := "audio/pcm;rate=16000" |}.

Definition demo_base64ToUint8Array (base64 : string) : Res (list Byte.byte) :=
  if String.eqb base64 "!" then
    Throw {| name := "InvalidCharacterError"; message := "The string is not correctly encoded." |}
  else Ok (list_byte_of_string base64).

Definition demo_decodeAudioData (bytes : list Byte.byte) (sampleRate numChannels : Z) :
    Res AudioBuffer :=
  Ok {| duration := Z.of_nat (length bytes) # 48000 |}.

Definition demo_props : Props :=
  {| apiKey := "key"; characterName := "Mika"; scenario := "Casual chat";
     personality := "Friendly"; isActive := true; audioDeviceId := None;
     onSpeakingChanged := true |}.

Definition anonymous_props : Props :=
  {| apiKey := "key"; characterName := ""; scenario := "Casual chat";
     personality := "Friendly"; isActive := true; audioDeviceId := None;
     onSpeakingChanged := true |}.

(** Every browser and SDK call of setup succeeds. *)
Definition granted : SetupEnv :=
  {| env_outputContext := None; env_inputContext := None;
     env_getUserMedia := fun _ => None; env_connect := None |}.


(** Two fragments, with the session opening before them, a capture buffer
    between them and the first one ending after them. *)
Definition two_fragments : list Event :=
  [ EvOpen;
    EvMessage 0%Q {| inlineData := Some "AAAAAAAA"; interrupted := false |};
    EvAudioProcess [0%Q];
    EvMessage (1 # 1000)%Q {| inlineData := Some "BBBB"; interrupted := false |};
    EvEnded 0 ].

(** Three sources are scheduled and still active. *)
Definition three_active : World :=
  on_refs (fun r => set_nextStartTimeRef (3 # 2)%Q (set_sourcesRef {[ 0; 1; 2 ]} r))
    (on_platform (fun pl => set_speaking true (set_created 3 pl)) initial).

Definition interruption : LiveServerMessage :=
  {| inlineData := None; interrupted := true |}.

Definition capture_trace : list Event :=
  [ EvAudioProcess [0%Q]; EvOpen; EvAudioProcess [1 # 2; 0]%Q;
    EvAudioProcess [1 # 4]%Q; EvSessionReady; EvAudioProcess []%Q ].

Definition speech_trace : list Event :=
  [ EvOpen;
    EvMessage 0%Q {| inlineData := Some "AAAA"; interrupted := false |};
    EvMessage (1 # 10)%Q {| inlineData := Some "BBBB"; interrupted := false |};
    EvEnded 0; EvEnded 1;
    EvMessage 1%Q {| inlineData := Some "CCCC"; interrupted := true |} ].


(** C1 on [two_fragments], from the first render. *)
Lemma fragments_scheduled_back_to_back_witness :
  let w' := run demo_createPcmBlob demo_base64ToUint8Array demo_decodeAudioData
              demo_props two_fragments initial in
  let new := plan 0 0%Q
               (fragments demo_base64ToUint8Array demo_decodeAudioData two_fragments) in
  playback (platform w') = playback (platform initial) ++ new /\
  nextStartTimeRef (refs w') =
    plan_end 0%Q (fragments demo_base64ToUint8Array demo_decodeAudioData two_fragments) /\
  forall i a b, new !! i = Some a -> new !! S i = Some b ->
                (startAt a + length_s a <= startAt b)%Q.
Proof.
  apply (fragments_scheduled_back_to_back demo_createPcmBlob demo_base64ToUint8Array
           demo_decodeAudioData demo_props two_fragments initial).
  repeat constructor.
Defined.

(** C2 on an interruption that arrives while three sources are active. *)
Lemma interruption_resets_witness :
  let w' := exec (onmessage demo_base64ToUint8Array demo_decodeAudioData
                    demo_props 1%Q interruption) three_active in
  onmessage demo_base64ToUint8Array demo_decodeAudioData demo_props 1%Q interruption
    three_active = (Ok tt, w') /\
  sourcesRef (refs w') = ∅ /\
  nextStartTimeRef (refs w') = 0%Q /\
  sourcesRef (refs three_active) ⊆ stopped (platform w').
Proof.
  apply (interruption_resets demo_base64ToUint8Array demo_decodeAudioData
           demo_props 1%Q interruption three_active); reflexivity.
Defined.

(** C3 on [capture_trace], after a setup that succeeded. *)
Lemma outbound_forwarding_in_order_witness :
  let w' := run demo_createPcmBlob demo_base64ToUint8Array demo_decodeAudioData
              demo_props capture_trace (exec (initSession granted demo_props) initial) in
  (~ In EvOpen capture_trace -> wire (platform w') = wire (platform initial)) /\
  (~ In EvSessionReady capture_trace -> wire (platform w') = wire (platform initial)) /\
  (In EvSessionReady capture_trace ->
   wire (platform w') =
     wire (platform initial) ++ map demo_createPcmBlob (handled false capture_trace)).
Proof.
  apply (outbound_forwarding_in_order demo_createPcmBlob demo_base64ToUint8Array
           demo_decodeAudioData granted demo_props initial capture_trace).
  reflexivity.
Defined.





(** C8 on a character without a name and on one named Mika. *)
Lemma systemInstruction_opening_witness :
  (exists rest, systemInstruction anonymous_props = ("You are a 3D avatar. " ++ rest)%string) /\
  (exists rest, systemInstruction demo_props = ("You are Mika. " ++ rest)%string).
Proof.
  split.
  - apply (proj1 (systemInstruction_opening anonymous_props)). reflexivity.
  - apply (proj1 (proj2 (systemInstruction_opening demo_props))). discriminate.
Defined.

(** The schedule of [two_fragments] from the first render: the second
    fragment arrives (at 1 ms) after the first one's scheduled end, so it
    starts when it arrives. *)
Example two_fragments_schedule :
  playback (platform (run demo_createPcmBlob demo_base64ToUint8Array demo_decodeAudioData
                        demo_props two_fragments initial)) =
    [ {| source := 0; startAt := 0; length_s := 8 # 48000 |};
      {| source := 1; startAt := 1 # 1000; length_s := 4 # 48000 |} ].
Proof. reflexivity. Qed.

(** After an interruption the next fragment starts at the clock reading,
    not after the old tail. *)
Example next_after_interruption_starts_now :
  playback (platform
    (run demo_createPcmBlob demo_base64ToUint8Array demo_decodeAudioData demo_props
       [ EvMessage 1%Q interruption;
         EvMessage (11 # 10)%Q {| inlineData := Some "AAAA"; interrupted := false |} ]
       three_active)) =
    [ {| source := 3; startAt := 11 # 10; length_s := 4 # 48000 |} ].
Proof. reflexivity. Qed.

(** What was captured before [onopen] never reaches the handler; what is
    captured between [onopen] and the fulfilment of the session promise
    waits and is sent in order. *)
Example capture_trace_wire :
  map data (wire (platform
    (run demo_createPcmBlob demo_base64ToUint8Array demo_decodeAudioData demo_props
       capture_trace (exec (initSession granted demo_props) initial)))) =
    [ "AA"; "A"; "" ].
Proof. reflexivity. Qed.

(** An audio datum that does not decode: the handler rejects after it has
    reported speaking, and schedules nothing. *)
Example undecodable_fragment :
  let r := onmessage demo_base64ToUint8Array demo_decodeAudioData demo_props 0%Q
             {| inlineData := Some "!"; interrupted := true |} initial in
  fst r = Throw {| name := "InvalidCharacterError";
                   message := "The string is not correctly encoded." |} /\
  speaking (platform (snd r)) = true /\
  playback (platform (snd r)) = [].
Proof. repeat split. Qed.

(** With the hook inactive the effect only tears down: [retry] is followed
    by no setup. *)
Example retry_when_inactive :
  let p := {| apiKey := "key"; characterName := "Mika"; scenario := "Casual chat";
              personality := "Friendly"; isActive := false; audioDeviceId := None;
              onSpeakingChanged := true |} in
  connects (platform (exec (commit granted p) (exec retry (exec (commit granted p) initial)))) = [].
Proof. reflexivity. Qed.



(** C2 as stated fails: an interruption signal that comes with audio which
    does not decode is not acted upon.  The handler rejects at the decoding,
    before the interruption branch: the three active sources stay in the
    set, none of them is stopped and the clock keeps its value. *)
Lemma interruption_with_undecodable_audio_resets_nothing :
  let msg := {| inlineData := Some "!"; interrupted := true |} in
  let r := onmessage demo_base64ToUint8Array demo_decodeAudioData demo_props 1%Q msg
             three_active in
  interrupted msg = true /\
  fst r = Throw {| name := "InvalidCharacterError";
                   message := "The string is not correctly encoded." |} /\
  sourcesRef (refs (snd r)) = {[ 0; 1; 2 ]} /\
  nextStartTimeRef (refs (snd r)) = (3 # 2)%Q /\
  stopped (platform (snd r)) = ∅ /\
  sourcesRef (refs (snd r)) <> ∅ /\
  ~ (nextStartTimeRef (refs (snd r)) == 0)%Q.
Proof.
  cbv zeta.
  split; [reflexivity|]. split; [reflexivity|]. split; [reflexivity|].
  split; [reflexivity|]. split; [reflexivity|]. split.
  - change (({[ 0; 1; 2 ]} : gset nat) <> ∅). intros H.
    apply (not_elem_of_empty (C := gset nat) 0). rewrite <- H.
    apply elem_of_union_l, elem_of_union_l, elem_of_singleton. reflexivity.
  - change (~ (3 # 2 == 0)%Q). intros H. discriminate H.
Qed.



End Scenarios.

Module AppScenarios.
Import App AppFacts.

(** The application as first rendered. *)
Definition initial : World :=
  {| state := {| step := setup; apiKey := ""; characterName := ""; scenario := "";
                 personality := "Friendly"; vrmUrl := None; backgroundUrl := None |};
     bgMode := upload; micOn := true; isSpeaking := false;
     selectedVideoDevice := ""; selectedAudioDevice := "";
     showSettings := false; expressionFactor := 3 # 5; requests := [] |}.

Definition ready (mode : BgMode) : World :=
  {| state := {| step := setup; apiKey := "key"; characterName := "Mika";
                 scenario := "Casual chat"; personality := "Friendly";
                 vrmUrl := Some "blob:model"; backgroundUrl := None |};
     bgMode := mode; micOn := true; isSpeaking := false;
     selectedVideoDevice := ""; selectedAudioDevice := "";
     showSettings := false; expressionFactor := 3 # 5; requests := [] |}.

(** C9 on the application as first rendered: no model is loaded. *)
Lemma handleStart_guarded_witness : handleStart initial = initial.
Proof. apply (handleStart_guarded initial). left. reflexivity. Defined.

Example handleStart_upload : step (state (handleStart (ready upload))) = call.
Proof. reflexivity. Qed.

Example handleStart_generate :
  step (state (handleStart (ready generate))) = generating /\
  length (requests (handleStart (ready generate))) = 1.
Proof. split; reflexivity. Qed.

End AppScenarios.

Module AvatarScenarios.
Import Avatar AvatarFacts.

(** 128 bins, all at 200. *)
Definition loud : AnalyserNode := {| byteFrequencyData := repeat Byte.xc8 128 |}.

(** 128 bins, all at 4. *)
Definition quiet : AnalyserNode := {| byteFrequencyData := repeat Byte.x04 128 |}.

Definition demo_sin (x : Q) : Q := 3 # 4.

Example loud_volume : (volume (3 # 5) loud == 3 # 5)%Q.
Proof. reflexivity. Qed.

Example quiet_volume : (volume (3 # 5) quiet == 24 # 1000)%Q.
Proof. reflexivity. Qed.

(** C10 on a quiet and on a loud frame. *)
Lemma lipSync_vowels_witness :
  lipSync demo_sin 0 (3 # 5) quiet ∅ = resetVowels ∅ /\
  (lipSync demo_sin 0 (3 # 5) loud ∅ !! "ou" = Some 0%Q /\
   lipSync demo_sin 0 (3 # 5) loud ∅ !! "ee" = Some 0%Q /\
   exists aa oh ih,
     lipSync demo_sin 0 (3 # 5) loud ∅ !! "aa" = Some aa /\
     lipSync demo_sin 0 (3 # 5) loud ∅ !! "oh" = Some oh /\
     lipSync demo_sin 0 (3 # 5) loud ∅ !! "ih" = Some ih /\
     (0 < aa <= 1)%Q /\ (0 <= oh <= 1)%Q /\ (0 <= ih <= 1)%Q /\
     (oh = 0%Q \/ ih = 0%Q)).
Proof.
  split.
  - apply (proj1 (proj2 (proj2 (lipSync_vowels demo_sin 0 (3 # 5) quiet ∅)))).
    vm_compute. discriminate.
  - apply (proj2 (proj2 (proj2 (lipSync_vowels demo_sin 0 (3 # 5) loud ∅)))).
    vm_compute. reflexivity.
Defined.

End AvatarScenarios.

(** * More of the hook: what the session callbacks and the effect keep *)

Module GeminiLiveMore.
Import GeminiLive GeminiLiveFacts.
Local Open Scope hook_scope.
#[local] Set Warnings "-clear-no-such-hyp".

(** [onSpeakingChanged?.(b)] *)
Definition reported (p : Props) (b : bool) (w : World) : World :=
  if onSpeakingChanged p then on_platform (set_speaking b) w else w.

(** The connection status after [evs], from the status [c] before: the
    last of [onopen], [onclose] and [cleanup] decides. *)
Fixpoint status_after (c : bool) (evs : list Event) : bool :=
  match evs with
  | [] => c
  | EvOpen :: rest => status_after true rest
  | EvClose :: rest => status_after false rest
  | EvCleanup :: rest => status_after false rest
  | _ :: rest => status_after c rest
  end.

(** No message of the run carries the interruption signal. *)
Definition no_interruption (ev : Event) : Prop :=
  match ev with
  | EvMessage _ msg => interrupted msg = false
  | _ => True
  end.

(** The sources [start] was called on. *)
Definition started (w : World) : gset nat :=
  list_to_set (map source (playback (platform w))).

(** [active p]: the guard of the effect lets setup run. *)
Definition active (p : Props) : bool := isActive p && truthy (apiKey p).

(** What the effect leaves when it runs for [p] (a dependency changed):
    the teardown of the previous run if it returned one, then setup or, for
    an inactive hook, one more teardown. *)
Definition effect_run (env : SetupEnv) (p : Props) (w : World) : World :=
  let w1 := if effectCleanup (react w) then torn_down w else w in
  let w2 :=
    if active p then exec (initSession env p) w1
    else if isActive p then w1 else torn_down w1 in
  on_react (fun r => set_effectCleanup (active p)
                       (set_effectDeps (Some (p, retryCount (react w))) r)) w2.

Section Callbacks.

Variable createPcmBlob : list Q -> Blob.
Variable base64ToUint8Array : string -> Res (list Byte.byte).
Variable decodeAudioData : list Byte.byte -> Z -> Z -> Res AudioBuffer.

Abbreviation onmsg := (onmessage base64ToUint8Array decodeAudioData).
Abbreviation stp := (step createPcmBlob base64ToUint8Array decodeAudioData).
Abbreviation runs := (run createPcmBlob base64ToUint8Array decodeAudioData).
Abbreviation dec := (decoded base64ToUint8Array decodeAudioData).

(** [onmessage] on audio that does not decode: it rejects, having reported
    speaking and, when the failure is in [decodeAudioData], having moved
    the clock up to now. *)
Lemma onmessage_rejects (p : Props) (now : Q) (msg : LiveServerMessage)
    (base64Audio : string) (w : World) :
  inlineData msg = Some base64Audio ->
  truthy base64Audio = true ->
  dec base64Audio = None ->
  exists e w',
    onmsg p now msg w = (Throw e, w') /\
    (w' = reported p true w \/
     w' = on_refs (fun r => set_nextStartTimeRef (Qmax (nextStartTimeRef r) now) r)
            (reported p true w)).
Proof.
  intros Hd Ht Hdec. unfold decoded in Hdec.
  unfold GeminiLive.onmessage. rewrite Hd, Ht.
  destruct w as [r rf pl]; destruct rf, pl.
  unfold bind, report, reported, when, lift, gets, modify, ret, on_refs, on_platform; simpl.
  destruct (base64ToUint8Array base64Audio) as [bytes|e1] eqn:Hb.
  - destruct (decodeAudioData bytes 24000 1) as [buf|e2] eqn:Hbuf; [discriminate|].
    exists e2.
    destruct (onSpeakingChanged p); simpl; rewrite ?Hb; simpl; rewrite ?Hbuf; simpl;
      eexists; (split; [reflexivity | right; reflexivity]).
  - exists e1.
    destruct (onSpeakingChanged p); simpl; rewrite ?Hb; simpl;
      eexists; (split; [reflexivity | left; reflexivity]).
Qed.

(** The three ways a message is handled. *)
Lemma onmessage_cases (p : Props) (now : Q) (msg : LiveServerMessage) (w : World) :
  (truthy_opt (inlineData msg) = false /\
   exec (onmsg p now msg) w = (if interrupted msg then interrupt p w else w)) \/
  (exists s buf, inlineData msg = Some s /\ dec s = Some buf /\
     exec (onmsg p now msg) w =
       (if interrupted msg then interrupt p (scheduled p now buf w)
        else scheduled p now buf w)) \/
  (exec (onmsg p now msg) w = reported p true w \/
   exec (onmsg p now msg) w =
     on_refs (fun r => set_nextStartTimeRef (Qmax (nextStartTimeRef r) now) r)
       (reported p true w)).
Proof.
  destruct (inlineData msg) as [s|] eqn:Hs.
  - destruct (truthy s) eqn:Ht.
    + destruct (dec s) as [buf|] eqn:Hdec.
      * right; left. exists s, buf. repeat split; auto.
        unfold exec. rewrite (onmessage_audio _ _ p now msg s buf w Hs Ht Hdec). reflexivity.
      * right; right.
        destruct (onmessage_rejects p now msg s w Hs Ht Hdec) as (e & w' & Hr & Hw).
        unfold exec. rewrite Hr. simpl. destruct Hw; subst; auto.
    + left. assert (Hf : truthy_opt (inlineData msg) = false) by (rewrite Hs; exact Ht).
      split; [rewrite <- Hs; exact Hf|].
      unfold exec. rewrite (onmessage_silent _ _ p now msg w Hf). reflexivity.
  - left. assert (Hf : truthy_opt (inlineData msg) = false) by (rewrite Hs; reflexivity).
    split; [reflexivity|].
    unfold exec. rewrite (onmessage_silent _ _ p now msg w Hf). reflexivity.
Qed.

Ltac open_world w :=
  destruct w as [?r ?rf ?pl]; destruct r, rf, pl;
  unfold interrupt, scheduled, reported, on_refs, on_react, on_platform; simpl.

Lemma onmessage_react (p : Props) (now : Q) (msg : LiveServerMessage) (w : World) :
  react (exec (onmsg p now msg) w) = react w.
Proof.
  destruct (onmessage_cases p now msg w) as [[_ H]|[(s & buf & _ & _ & H)|[H|H]]];
    rewrite H; open_world w;
    destruct (interrupted msg), (onSpeakingChanged p); reflexivity.
Qed.

Lemma step_react (p : Props) (ev : Event) (w : World) :
  react (exec (stp p ev) w) =
    match ev with
    | EvOpen => set_isConnected true (react w)
    | EvClose => set_isConnected false (react w)
    | EvCleanup => set_isConnected false (react w)
    | EvError => set_error (Some "Connection error occurred.") (react w)
    | _ => react w
    end.
Proof.
  destruct ev; simpl step.
  - open_world w. reflexivity.
  - open_world w. unfold exec, modify, sessionPromise_fulfil; simpl.
    destruct sessionPromiseRef0 as [[q|]|]; reflexivity.
  - open_world w.
    unfold exec, bind, gets, when, audioprocess_handler, modify,
      handlerInstalled, sessionPromise_then; simpl.
    destruct scriptProcessorRef0 as [[b o []]|]; simpl;
      try destruct sessionPromiseRef0 as [[q|]|]; reflexivity.
  - apply onmessage_react.
  - open_world w. unfold exec, onended, bind, gets, modify, when, ret; simpl.
    destruct (_ && _); reflexivity.
  - open_world w. reflexivity.
  - open_world w. reflexivity.
  - unfold exec. rewrite cleanup_torn_down. open_world w. reflexivity.
Qed.

Lemma run_react_state (p : Props) (evs : list Event) (w : World) :
  isConnected (react (runs p evs w)) = status_after (isConnected (react w)) evs /\
  (In EvError evs ->
   error (react (runs p evs w)) = Some "Connection error occurred.") /\
  (~ In EvError evs -> error (react (runs p evs w)) = error (react w)) /\
  retryCount (react (runs p evs w)) = retryCount (react w).
Proof.
  revert w. induction evs as [|ev evs IH]; intros w.
  - simpl. repeat split; auto. intros [].
  - change (runs p (ev :: evs) w) with (runs p evs (exec (stp p ev) w)).
    destruct (IH (exec (stp p ev) w)) as (Hc & He & Hn & Hr).
    rewrite Hc, Hr, (step_react p ev w).
    assert (Hdec : In EvError evs \/ ~ In EvError evs).
    { clear. induction evs as [|e l IHl]; [right; intros []|].
      destruct IHl as [H|H]; [left; right; exact H|].
      destruct e; try (right; intros [Hx|Hx]; [discriminate | contradiction]).
      left; left; reflexivity. }
    repeat split.
    + destruct ev, (react w); reflexivity.
    + intros Hin. destruct Hdec as [Hyes|Hno]; [auto|].
      destruct Hin as [->|Hin]; [|contradiction].
      rewrite (Hn Hno), (step_react p EvError w). destruct (react w); reflexivity.
    + intros Hno. rewrite Hn by (intros H; apply Hno; right; exact H).
      rewrite (step_react p ev w).
      destruct ev, (react w); try reflexivity. exfalso; apply Hno; left; reflexivity.
    + destruct ev, (react w); reflexivity.
Qed.

(** X1. Over any run of the session callbacks and teardowns: the
    connection status is decided by the last of [onopen], [onclose] and
    [cleanup] (messages, errors, ended sources and capture buffers leave it
    alone, so an error does not mark the call disconnected); the error is
    the connection-error text once [onerror] has run and otherwise the error
    there was: nothing but [retry] clears it; the retry count is
    unchanged. *)
Theorem callbacks_on_status_and_error (p : Props) (evs : list Event) (w : World) :
  isConnected (react (runs p evs w)) = status_after (isConnected (react w)) evs /\
  (In EvError evs ->
   error (react (runs p evs w)) = Some "Connection error occurred.") /\
  (~ In EvError evs -> error (react (runs p evs w)) = error (react w)) /\
  retryCount (react (runs p evs w)) = retryCount (react w).
Proof. apply run_react_state. Qed.

(** X2. When no interruption intervenes and decoded buffers have
    non-negative durations, the playback clock never goes back, whatever the
    events: also across messages whose audio does not decode, ended sources
    and teardowns. *)
Theorem clock_never_goes_back (p : Props) (evs : list Event) (w : World) :
  (forall s buf, dec s = Some buf -> (0 <= duration buf)%Q) ->
  Forall no_interruption evs ->
  (nextStartTimeRef (refs w) <= nextStartTimeRef (refs (runs p evs w)))%Q.
Proof.
  intros Hdur. revert w. induction evs as [|ev evs IH]; intros w Hall.
  - simpl. apply Qle_refl.
  - inversion Hall as [|e l Hev Hrest]; subst.
    change (runs p (ev :: evs) w) with (runs p evs (exec (stp p ev) w)).
    eapply Qle_trans; [|apply IH; exact Hrest]. clear IH Hrest Hall.
    destruct ev as [| |inputData|now msg|source| | |];
      try (match goal with
           | |- context [exec (stp p ?e) w] =>
               destruct (step_no_fragment createPcmBlob base64ToUint8Array decodeAudioData
                           p e w I eq_refl) as (_ & _ & Hsame)
           end; rewrite Hsame; apply Qle_refl).
    simpl in Hev. simpl step.
    destruct (onmessage_cases p now msg w) as [[_ H]|[(s & buf & _ & Hd & H)|[H|H]]];
      rewrite H, ?Hev; open_world w; destruct (onSpeakingChanged p); simpl;
      try apply Qle_refl; try apply Q.le_max_l.
    all: specialize (Hdur s buf Hd);
      pose proof (Q.le_max_l nextStartTimeRef0 now); lra.
Qed.

Lemma started_snoc (pl : list Scheduled) (x : Scheduled) :
  list_to_set (C := gset nat) (map source (pl ++ [x])) =
    list_to_set (map source pl) ∪ {[ source x ]}.
Proof.
  rewrite map_app, list_to_set_app_L. simpl. rewrite (right_id_L ∅ (∪)). reflexivity.
Qed.

Lemma step_active_started (p : Props) (ev : Event) (w : World) :
  sourcesRef (refs w) ⊆ started w ->
  sourcesRef (refs (exec (stp p ev) w)) ⊆ started (exec (stp p ev) w).
Proof.
  intros Hw. destruct ev; simpl step.
  - open_world w. exact Hw.
  - open_world w. unfold exec, modify, sessionPromise_fulfil; simpl.
    destruct sessionPromiseRef0 as [[q|]|]; exact Hw.
  - open_world w.
    unfold exec, bind, gets, when, audioprocess_handler, modify,
      handlerInstalled, sessionPromise_then; simpl.
    destruct scriptProcessorRef0 as [[b o []]|]; simpl;
      try destruct sessionPromiseRef0 as [[q|]|]; exact Hw.
  - destruct (onmessage_cases p now msg w) as [[_ H]|[(s & buf & _ & _ & H)|[H|H]]];
      rewrite H; clear H; unfold started in *; open_world w;
      destruct (interrupted msg), (onSpeakingChanged p); simpl;
      rewrite ?started_snoc; simpl; set_solver.
  - unfold started in *. open_world w.
    unfold exec, onended, bind, gets, modify, when, ret; simpl.
    destruct (_ && _); simpl; set_solver.
  - open_world w. exact Hw.
  - open_world w. exact Hw.
  - unfold exec. rewrite cleanup_torn_down. unfold started in *. open_world w. set_solver.
Qed.

(** X3. The active set only ever holds sources that were started: from
    a state where this is so (as on first render) it stays so after every
    event, whether messages decode or not, are interrupted or not.  So the
    [stop] calls of an interruption or a teardown are always on started
    sources. *)
Theorem active_sources_were_started (p : Props) (evs : list Event) (w : World) :
  sourcesRef (refs w) ⊆ started w ->
  sourcesRef (refs (runs p evs w)) ⊆ started (runs p evs w).
Proof.
  revert w. induction evs as [|ev evs IH]; intros w Hw; [exact Hw|].
  change (runs p (ev :: evs) w) with (runs p evs (exec (stp p ev) w)).
  apply IH. apply step_active_started. exact Hw.
Qed.

(** X4. A message that carries both audio and the interruption signal:
    the fragment is started like any other and stopped in the same
    handler run; afterwards nothing is active and the clock is zero. *)
Theorem audio_with_interruption_is_stopped (p : Props) (now : Q)
    (msg : LiveServerMessage) (base64Audio : string) (audioBuffer : AudioBuffer)
    (w : World) :
  inlineData msg = Some base64Audio ->
  truthy base64Audio = true ->
  dec base64Audio = Some audioBuffer ->
  interrupted msg = true ->
  let w' := exec (onmsg p now msg) w in
  onmsg p now msg w = (Ok tt, w') /\
  playback (platform w') =
    playback (platform w) ++
      [{| source := created (platform w);
          startAt := Qmax (nextStartTimeRef (refs w)) now;
          length_s := duration audioBuffer |}] /\
  created (platform w) ∈ stopped (platform w') /\
  sourcesRef (refs w') = ∅ /\
  nextStartTimeRef (refs w') = 0%Q.
Proof.
  intros Hd Ht Hdec Hi w'. subst w'. unfold exec.
  rewrite (onmessage_audio _ _ p now msg base64Audio audioBuffer w Hd Ht Hdec), Hi.
  simpl. open_world w. destruct (onSpeakingChanged p); simpl; repeat split; set_solver.
Qed.

(** X5. A message whose audio does not decode: the handler rejects;
    nothing is scheduled, nothing is stopped and the active set is as it
    was, even when the message carries the interruption signal; the clock
    is as it was or moved up to now; and speaking has been reported. *)
Theorem undecodable_audio_rejects (p : Props) (now : Q) (msg : LiveServerMessage)
    (base64Audio : string) (w : World) :
  inlineData msg = Some base64Audio ->
  truthy base64Audio = true ->
  dec base64Audio = None ->
  let w' := exec (onmsg p now msg) w in
  (exists e, onmsg p now msg w = (Throw e, w')) /\
  playback (platform w') = playback (platform w) /\
  sourcesRef (refs w') = sourcesRef (refs w) /\
  stopped (platform w') = stopped (platform w) /\
  (nextStartTimeRef (refs w') = nextStartTimeRef (refs w) \/
   nextStartTimeRef (refs w') = Qmax (nextStartTimeRef (refs w)) now) /\
  (onSpeakingChanged p = true -> speaking (platform w') = true).
Proof.
  intros Hd Ht Hdec w'. subst w'.
  destruct (onmessage_rejects p now msg base64Audio w Hd Ht Hdec) as (e & w' & Hr & Hw).
  unfold exec. rewrite Hr. simpl. split; [exists e; reflexivity|].
  destruct Hw; subst w'; open_world w;
    destruct (onSpeakingChanged p); simpl; repeat split; auto; discriminate.
Qed.

(** Setup, failed or not, writes the refs it creates, the error and the
    connect log, and nothing else. *)
Lemma initSession_frame (env : SetupEnv) (p : Props) (w : World) :
  let w' := exec (initSession env p) w in
  nextStartTimeRef (refs w') = nextStartTimeRef (refs w) /\
  sourcesRef (refs w') = sourcesRef (refs w) /\
  isConnected (react w') = isConnected (react w) /\
  retryCount (react w') = retryCount (react w) /\
  effectDeps (react w') = effectDeps (react w) /\
  effectCleanup (react w') = effectCleanup (react w) /\
  playback (platform w') = playback (platform w) /\
  created (platform w') = created (platform w) /\
  wire (platform w') = wire (platform w).
Proof.
  destruct w as [r rf pl]; destruct r, rf, pl.
  unfold exec, initSession, try_catch, initSession_try, new_AudioContext, fails, bind,
    throw, ret, modify, on_refs, on_platform, on_react; simpl.
  destruct (env_outputContext env); simpl; [repeat split|].
  destruct (env_inputContext env); simpl; [repeat split|].
  destruct (env_getUserMedia env (constraints p)); simpl; [repeat split|].
  destruct (env_connect env); simpl; repeat split.
Qed.

(** X6. Neither the teardown nor setup resets the playback clock: after
    a restart the first fragment is scheduled at the later of the scheduled
    end the previous session left and the clock reading of the new audio
    context. *)
Theorem restart_keeps_playback_clock (env : SetupEnv) (p : Props) (now : Q)
    (msg : LiveServerMessage) (base64Audio : string) (audioBuffer : AudioBuffer)
    (w : World) :
  inlineData msg = Some base64Audio ->
  truthy base64Audio = true ->
  dec base64Audio = Some audioBuffer ->
  let w0 := exec (initSession env p) (exec cleanup w) in
  nextStartTimeRef (refs w0) = nextStartTimeRef (refs w) /\
  exists e,
    last (playback (platform (exec (onmsg p now msg) w0))) = Some e /\
    startAt e = Qmax (nextStartTimeRef (refs w)) now.
Proof.
  intros Hd Ht Hdec w0.
  assert (Hclock : nextStartTimeRef (refs w0) = nextStartTimeRef (refs w)).
  { subst w0. destruct (initSession_frame env p (exec cleanup w)) as (-> & _).
    unfold exec. rewrite cleanup_torn_down. destruct w as [r rf pl]; reflexivity. }
  split; [exact Hclock|].
  unfold exec at 1.
  rewrite (onmessage_audio _ _ p now msg base64Audio audioBuffer w0 Hd Ht Hdec).
  rewrite <- Hclock. clearbody w0. simpl.
  destruct (interrupted msg); open_world w0; destruct (onSpeakingChanged p); simpl;
    rewrite last_snoc; eexists; split; reflexivity.
Qed.

End Callbacks.

(** *** The effect *)

Lemma commit_unchanged (env : SetupEnv) (p : Props) (w : World) :
  effectDeps (react w) = Some (p, retryCount (react w)) ->
  commit env p w = (Ok tt, w).
Proof.
  intros Hd. unfold commit, bind, gets. rewrite Hd.
  rewrite decide_True by reflexivity. reflexivity.
Qed.

Lemma commit_changed (env : SetupEnv) (p : Props) (w : World) :
  effectDeps (react w) <> Some (p, retryCount (react w)) ->
  commit env p w = (Ok tt, effect_run env p w).
Proof.
  intros Hd. unfold commit, bind, gets.
  rewrite decide_False by exact Hd.
  unfold effect_run, active, when, effect.
  destruct (effectCleanup (react w)); simpl;
    rewrite ?cleanup_torn_down; unfold ret at 1;
    destruct (isActive p); simpl;
    try (destruct (truthy (apiKey p)); simpl);
    unfold bind; rewrite ?initSession_returns, ?cleanup_torn_down; reflexivity.
Qed.

Lemma effect_run_deps (env : SetupEnv) (p : Props) (w : World) :
  effectDeps (react (effect_run env p w)) =
    Some (p, retryCount (react (effect_run env p w))).
Proof.
  unfold effect_run.
  set (w1 := if effectCleanup (react w) then torn_down w else w).
  assert (H1 : retryCount (react w1) = retryCount (react w))
    by (subst w1; destruct (effectCleanup (react w)); [destruct w as [[] ? ?]|]; reflexivity).
  set (w2 := if active p then exec (initSession env p) w1
             else if isActive p then w1 else torn_down w1).
  assert (H2 : retryCount (react w2) = retryCount (react w)).
  { subst w2. destruct (active p).
    - destruct (initSession_frame env p w1) as (_ & _ & _ & -> & _). exact H1.
    - destruct (isActive p); [exact H1|]. rewrite <- H1. destruct w1 as [[] ? ?]; reflexivity. }
  destruct w2 as [[] ? ?]; simpl in *. rewrite H2. reflexivity.
Qed.

(** X7. A render that changes no dependency does not run the effect
    again: right after a commit for some props, another commit for the same
    props changes nothing, so the session is neither torn down nor set up
    anew. *)
Theorem rerender_keeps_session (env env' : SetupEnv) (p : Props) (w : World) :
  commit env' p (exec (commit env p) w) = (Ok tt, exec (commit env p) w).
Proof.
  apply commit_unchanged. unfold exec.
  destruct (decide (effectDeps (react w) = Some (p, retryCount (react w)))) as [Hd|Hd].
  - rewrite (commit_unchanged env p w Hd). exact Hd.
  - rewrite (commit_changed env p w Hd). apply effect_run_deps.
Qed.


End GeminiLiveMore.

(** * More of App.tsx: the handlers, the two views, the props of the hook *)

Module AppMore.
Import App.

Definition with_state (f : AppState -> AppState) (w : World) : World :=
  {| state := f (state w);
     bgMode := bgMode w; micOn := micOn w; isSpeaking := isSpeaking w;
     selectedVideoDevice := selectedVideoDevice w;
     selectedAudioDevice := selectedAudioDevice w;
     showSettings := showSettings w; expressionFactor := expressionFactor w;
     requests := requests w |}.

(** [setState(prev => ({ ...prev, apiKey: v }))] and the like. *)
Definition set_apiKey (v : string) (s : AppState) : AppState :=
  {| step := step s; apiKey := v; characterName := characterName s;
     scenario := scenario s; personality := personality s;
     vrmUrl := vrmUrl s; backgroundUrl := backgroundUrl s |}.

Definition set_characterName (v : string) (s : AppState) : AppState :=
  {| step := step s; apiKey := apiKey s; characterName := v;
     scenario := scenario s; personality := personality s;
     vrmUrl := vrmUrl s; backgroundUrl := backgroundUrl s |}.

Definition set_scenario (v : string) (s : AppState) : AppState :=
  {| step := step s; apiKey := apiKey s; characterName := characterName s;
     scenario := v; personality := personality s;
     vrmUrl := vrmUrl s; backgroundUrl := backgroundUrl s |}.

Definition set_personality (v : string) (s : AppState) : AppState :=
  {| step := step s; apiKey := apiKey s; characterName := characterName s;
     scenario := scenario s; personality := v;
     vrmUrl := vrmUrl s; backgroundUrl := backgroundUrl s |}.

Definition set_vrmUrl (v : option string) (s : AppState) : AppState :=
  {| step := step s; apiKey := apiKey s; characterName := characterName s;
     scenario := scenario s; personality := personality s;
     vrmUrl := v; backgroundUrl := backgroundUrl s |}.

Definition setBgMode (m : BgMode) (w : World) : World :=
  {| state := state w;
     bgMode := m; micOn := micOn w; isSpeaking := isSpeaking w;
     selectedVideoDevice := selectedVideoDevice w;
     selectedAudioDevice := selectedAudioDevice w;
     showSettings := showSettings w; expressionFactor := expressionFactor w;
     requests := requests w |}.

Definition setMicOn (b : bool) (w : World) : World :=
  {| state := state w;
     bgMode := bgMode w; micOn := b; isSpeaking := isSpeaking w;
     selectedVideoDevice := selectedVideoDevice w;
     selectedAudioDevice := selectedAudioDevice w;
     showSettings := showSettings w; expressionFactor := expressionFactor w;
     requests := requests w |}.

Definition setShowSettings (b : bool) (w : World) : World :=
  {| state := state w;
     bgMode := bgMode w; micOn := micOn w; isSpeaking := isSpeaking w;
     selectedVideoDevice := selectedVideoDevice w;
     selectedAudioDevice := selectedAudioDevice w;
     showSettings := b; expressionFactor := expressionFactor w;
     requests := requests w |}.

Definition setSelectedVideoDevice (d : string) (w : World) : World :=
  {| state := state w;
     bgMode := bgMode w; micOn := micOn w; isSpeaking := isSpeaking w;
     selectedVideoDevice := d;
     selectedAudioDevice := selectedAudioDevice w;
     showSettings := showSettings w; expressionFactor := expressionFactor w;
     requests := requests w |}.

Definition setSelectedAudioDevice (d : string) (w : World) : World :=
  {| state := state w;
     bgMode := bgMode w; micOn := micOn w; isSpeaking := isSpeaking w;
     selectedVideoDevice := selectedVideoDevice w;
     selectedAudioDevice := d;
     showSettings := showSettings w; expressionFactor := expressionFactor w;
     requests := requests w |}.

Definition setExpressionFactor (q : Q) (w : World) : World :=
  {| state := state w;
     bgMode := bgMode w; micOn := micOn w; isSpeaking := isSpeaking w;
     selectedVideoDevice := selectedVideoDevice w;
     selectedAudioDevice := selectedAudioDevice w;
     showSettings := showSettings w; expressionFactor := q;
     requests := requests w |}.

(** [handleVrmChange]: [file] is the object URL made for the chosen file,
    if a file was chosen. *)
Definition handleVrmChange (file : option string) (w : World) : World :=
  match file with
  | Some url => with_state (set_vrmUrl (Some url)) w
  | None => w
  end.

(** [handleBgUpload] *)
Definition handleBgUpload (file : option string) (w : World) : World :=
  match file with
  | Some url => set_backgroundUrl (Some url) (setBgMode upload w)
  | None => w
  end.

(** [handleScenarioSelect] *)
Definition handleScenarioSelect (text : string) (w : World) : World :=
  with_state (set_scenario text) w.

(** The hang-up button:
    [setState(prev => ({ ...prev, step: 'setup', backgroundUrl: null, vrmUrl: null }))] *)
Definition hangUp (w : World) : World :=
  set_step setup (set_backgroundUrl None (with_state (set_vrmUrl None) w)).

(** What the user and the image request can do. *)
Inductive Action :=
| TypeApiKey (v : string)
| ChooseVrm (file : option string)
| TypeName (v : string)
| PickPersonality (v : string)
| PickScenario (v : string)
| PickBgMode (m : BgMode)
| UploadBackground (file : option string)
| ClickStart
| GenerationSettles (r : option (option string))
| ToggleSettings
| PickCamera (d : string)
| PickMicrophone (d : string)
| SlideExpression (q : Q)
| ToggleMic
| ClickHangUp.

(** The application and the number of image requests that have settled. *)
Record Ui := {
  world : World;
  settled : nat
}.

(** The setup view is rendered in the steps ['setup'] and ['generating'],
    the call view otherwise. *)
Definition setupView (w : World) : bool :=
  match step (state w) with
  | call => false
  | _ => true
  end.

(** Whether the page offers the action: the control is rendered in the
    current view and not disabled; an image request settles only while one
    is outstanding. *)
Definition offered (u : Ui) (a : Action) : bool :=
  let w := world u in
  match a with
  | TypeApiKey _ | ChooseVrm _ | TypeName _ | PickPersonality _
  | PickScenario _ | PickBgMode _ => setupView w
  | UploadBackground _ =>
      setupView w && match bgMode w with upload => true | generate => false end
  | ClickStart => setupView w && negb (startDisabled w)
  | GenerationSettles _ => Nat.ltb (settled u) (length (requests w))
  | ToggleSettings | ToggleMic | ClickHangUp => negb (setupView w)
  | PickCamera _ | PickMicrophone _ | SlideExpression _ =>
      negb (setupView w) && showSettings w
  end.

Definition act (a : Action) (u : Ui) : Ui :=
  let w := world u in
  match a with
  | TypeApiKey v => {| world := with_state (set_apiKey v) w; settled := settled u |}
  | ChooseVrm f => {| world := handleVrmChange f w; settled := settled u |}
  | TypeName v => {| world := with_state (set_characterName v) w; settled := settled u |}
  | PickPersonality v => {| world := with_state (set_personality v) w; settled := settled u |}
  | PickScenario v => {| world := handleScenarioSelect v w; settled := settled u |}
  | PickBgMode m => {| world := setBgMode m w; settled := settled u |}
  | UploadBackground f => {| world := handleBgUpload f w; settled := settled u |}
  | ClickStart => {| world := handleStart w; settled := settled u |}
  | GenerationSettles r =>
      {| world := generateBackground_settled r w; settled := S (settled u) |}
  | ToggleSettings => {| world := setShowSettings (negb (showSettings w)) w; settled := settled u |}
  | PickCamera d => {| world := setSelectedVideoDevice d w; settled := settled u |}
  | PickMicrophone d => {| world := setSelectedAudioDevice d w; settled := settled u |}
  | SlideExpression q => {| world := setExpressionFactor q w; settled := settled u |}
  | ToggleMic => {| world := setMicOn (negb (micOn w)) w; settled := settled u |}
  | ClickHangUp => {| world := hangUp w; settled := settled u |}
  end.

(** An action the page does not offer does not happen. *)
Definition ui_step (u : Ui) (a : Action) : Ui :=
  if offered u a then act a u else u.

Definition ui_run (acts : list Action) (u : Ui) : Ui := fold_left ui_step acts u.

(** An object URL is never the empty string. *)
Definition object_urls (a : Action) : Prop :=
  match a with
  | ChooseVrm (Some url) => truthy url = true
  | UploadBackground (Some url) => truthy url = true
  | _ => True
  end.

(** The props [App] passes to [useGeminiLive]. *)
Definition hookProps (w : World) : GeminiLive.Props :=
  {| GeminiLive.apiKey := apiKey (state w);
     GeminiLive.characterName := characterName (state w);
     GeminiLive.scenario := scenario (state w);
     GeminiLive.personality := personality (state w);
     GeminiLive.isActive := match step (state w) with call => true | _ => false end;
     GeminiLive.audioDeviceId := Some (selectedAudioDevice w);
     GeminiLive.onSpeakingChanged := true |}.

(** The text of the status bubble:
    [error ? error : !isConnected ? 'Connecting...' : isSpeaking ? 'Talking...' : 'Listening...'] *)
Definition statusText (h : GeminiLive.World) : string :=
  if truthy_opt (GeminiLive.error (GeminiLive.react h)) then
    match GeminiLive.error (GeminiLive.react h) with
    | Some e => e
    | None => ""
    end
  else if negb (GeminiLive.isConnected (GeminiLive.react h)) then "Connecting..."
  else if GeminiLive.speaking (GeminiLive.platform h) then "Talking..."
  else "Listening...".

End AppMore.

Module AppMoreFacts.
Import App AppMore.

(** The inputs [handleStart] asks for are all present. *)
Definition ready (w : World) : bool :=
  truthy_opt (vrmUrl (state w)) && truthy (scenario (state w)) && truthy (apiKey (state w)).

Lemma snoc_neq {A} (l : list A) (x : A) : l ++ [x] <> l.
Proof.
  intros H. apply (f_equal (@length A)) in H. rewrite length_app in H. simpl in H. lia.
Qed.

(** X8. [handleStart] changes the application exactly when a model, a
    scenario and an API key are present, except that in upload mode it
    changes nothing when the step is already ['call']; and when it acts it
    moves to ['call'] (upload) or to ['generating'] with one image request
    for the scenario (generate), leaving every input as it was. *)
Theorem handleStart_acts_iff_ready (w : World) :
  (handleStart w = w <->
   ready w = false \/ (bgMode w = upload /\ step (state w) = call)) /\
  (ready w = true ->
   handleStart w =
     match bgMode w with
     | upload => set_step call w
     | generate => request (backgroundPrompt (scenario (state w))) (set_step generating w)
     end).
Proof.
  destruct w as [[st k cn sc pe vu bu] bm mo sp sv sa ss ef rq].
  unfold handleStart, generateBackground, ready, set_step, request; simpl.
  destruct (truthy_opt vu) eqn:Hv, (truthy sc) eqn:Hs, (truthy k) eqn:Hk; simpl;
    try (split; [split; [intros _; left; reflexivity | reflexivity] | discriminate]).
  split; [|reflexivity].
  destruct bm; split.
  - intros H. right. split; [reflexivity|]. inversion H. reflexivity.
  - intros [H|[_ H]]; [discriminate | rewrite H; reflexivity].
  - intros H. inversion H as [[Hst Hrq]]. exfalso. eapply snoc_neq. exact Hrq.
  - intros [H|[H _]]; discriminate.
Qed.

(** X9. A generation started from the setup step and then settled:
    with image data the application enters the call with the background
    set to the data URL of the image; with a response that carries no image,
    or an error, the application is back in the setup step with everything
    the user entered (and the previous background) as before the start. *)
Theorem generation_outcomes (w : World) (r : option (option string)) :
  ready w = true ->
  bgMode w = generate ->
  step (state w) = setup ->
  let w' := generateBackground_settled r (handleStart w) in
  match r with
  | Some (Some d) =>
      step (state w') = call /\
      backgroundUrl (state w') = Some ("data:image/jpeg;base64," ++ d)%string /\
      vrmUrl (state w') = vrmUrl (state w) /\
      apiKey (state w') = apiKey (state w) /\
      scenario (state w') = scenario (state w)
  | _ => w' = request (backgroundPrompt (scenario (state w))) w
  end.
Proof.
  destruct w as [[st k cn sc pe vu bu] bm mo sp sv sa ss ef rq].
  unfold ready, handleStart, generateBackground; simpl.
  intros Hr Hb Hs. subst bm st.
  apply andb_prop in Hr as [Hr Hk]. apply andb_prop in Hr as [Hv Hsc].
  rewrite Hv, Hsc, Hk; simpl.
  destruct r as [[d|]|]; simpl; repeat split.
Qed.

(** What the page keeps: outside the setup step there is a model URL, and
    the image requests issued are those settled plus the one outstanding
    while generating. *)
Definition ui_invariant (u : Ui) : Prop :=
  (step (state (world u)) <> setup -> truthy_opt (vrmUrl (state (world u))) = true) /\
  length (requests (world u)) =
    settled u + match step (state (world u)) with generating => 1 | _ => 0 end.

Lemma ui_step_invariant (u : Ui) (a : Action) :
  object_urls a -> ui_invariant u -> ui_invariant (ui_step u a).
Proof.
  intros Hurl [Hv Hn].
  destruct u as [[[st k cn sc pe vu bu] bm mo sp sv sa ss ef rq] n].
  unfold ui_invariant, ui_step, offered, act, setupView, startDisabled in *; simpl in *.
  destruct a; simpl in *.
  all: try solve [ destruct st; simpl in *; try destruct bm; try destruct ss; simpl in *;
                   try destruct file; simpl in *; split; auto; try congruence; try lia ].
  - (* start *)
    destruct (truthy_opt vu) eqn:Hvu, (truthy sc) eqn:Hsc, (truthy k) eqn:Hk, st; simpl;
      try (split; auto; fail);
      try (split; [intros Hx; specialize (Hv Hx); congruence | auto]; fail).
    unfold handleStart, generateBackground; simpl. rewrite Hvu, Hsc, Hk; simpl.
    destruct bm; simpl; split; auto.
    rewrite length_app; simpl. lia.
  - (* a request settles *)
    destruct (Nat.ltb_spec n (length rq)) as [Hlt|Hge]; simpl; [|split; auto].
    destruct st; simpl in *; try lia.
    destruct r as [[d|]|]; simpl; split; auto; try lia; try congruence.
Qed.

(** X10. However the user drives the page: whenever the step is not
    ['setup'] there is a non-empty model URL, so the call view always has
    an avatar to render; and at most one image request is outstanding, which
    is the case exactly in the step ['generating']. *)
Theorem call_view_has_a_model (acts : list Action) (u : Ui) :
  ui_invariant u ->
  Forall object_urls acts ->
  let u' := ui_run acts u in
  (step (state (world u')) <> setup -> truthy_opt (vrmUrl (state (world u'))) = true) /\
  length (requests (world u')) =
    settled u' + match step (state (world u')) with generating => 1 | _ => 0 end.
Proof.
  revert u. induction acts as [|a acts IH]; intros u Hu Hall; [exact Hu|].
  inversion Hall; subst. simpl. apply IH; auto using ui_step_invariant.
Qed.

End AppMoreFacts.

(** * App and the hook together *)

Module PageFacts.
Import GeminiLive GeminiLiveFacts GeminiLiveMore.
Local Open Scope hook_scope.

Lemma hookProps_inactive (a : App.World) :
  App.step (App.state a) <> App.call \/ App.apiKey (App.state a) = EmptyString ->
  active (AppMore.hookProps a) = false.
Proof.
  intros [Hs|Hk]; unfold active, AppMore.hookProps; simpl.
  - destruct (App.step (App.state a)); try reflexivity. contradiction.
  - rewrite Hk. apply andb_false_r.
Qed.

(** X11. Outside the call step, or with an empty API key, a commit of
    the hook for the props App passes issues no connect call and leaves the
    session promise alone: the session is only ever opened in the call step
    with a key. *)
Theorem no_session_outside_call (env : SetupEnv) (a : App.World) (h : World) :
  App.step (App.state a) <> App.call \/ App.apiKey (App.state a) = EmptyString ->
  let h' := exec (commit env (AppMore.hookProps a)) h in
  connects (platform h') = connects (platform h) /\
  sessionPromiseRef (refs h') = sessionPromiseRef (refs h).
Proof.
  intros Hout h'. subst h'. apply hookProps_inactive in Hout.
  unfold exec.
  destruct (decide (effectDeps (react h) =
                      Some (AppMore.hookProps a, retryCount (react h)))) as [Hd|Hd].
  - rewrite (commit_unchanged env _ h Hd). auto.
  - rewrite (commit_changed env _ h Hd). simpl snd.
    unfold effect_run. rewrite Hout.
    destruct (effectCleanup (react h)), (isActive (AppMore.hookProps a));
      destruct h as [[] [] []]; split; reflexivity.
Qed.


(** X13. The mute button, the settings toggle, the camera choice and
    the expression slider change no prop of the hook: the commit after any
    of them leaves the hook as it is.  In particular muting does not stop
    the capture. *)
Theorem call_controls_leave_session (env : SetupEnv) (a : App.World) (h : World)
    (b : bool) (d : string) (q : Q) :
  effectDeps (react h) = Some (AppMore.hookProps a, retryCount (react h)) ->
  commit env (AppMore.hookProps (AppMore.setMicOn b a)) h = (Ok tt, h) /\
  commit env (AppMore.hookProps (AppMore.setShowSettings b a)) h = (Ok tt, h) /\
  commit env (AppMore.hookProps (AppMore.setSelectedVideoDevice d a)) h = (Ok tt, h) /\
  commit env (AppMore.hookProps (AppMore.setExpressionFactor q a)) h = (Ok tt, h).
Proof.
  intros Hd. repeat split; apply commit_unchanged; exact Hd.
Qed.


Section Status.

Variable createPcmBlob : list Q -> Blob.
Variable base64ToUint8Array : string -> Res (list Byte.byte).
Variable decodeAudioData : list Byte.byte -> Z -> Z -> Res AudioBuffer.

(** X15. The status bubble shows the error whenever there is one: once
    [onerror] has run it reads "Connection error occurred." whatever comes
    after, and an error text set earlier is shown until then, also while
    the session is open and the model is speaking. *)
Theorem error_masks_status (p : Props) (evs : list Event) (h : World) :
  (In EvError evs ->
   AppMore.statusText (run createPcmBlob base64ToUint8Array decodeAudioData p evs h) =
     "Connection error occurred.") /\
  (forall e, error (react h) = Some e -> truthy e = true -> ~ In EvError evs ->
   AppMore.statusText (run createPcmBlob base64ToUint8Array decodeAudioData p evs h) = e).
Proof.
  destruct (run_react_state createPcmBlob base64ToUint8Array decodeAudioData p evs h)
    as (_ & Hin & Hno & _).
  split.
  - intros H. unfold AppMore.statusText. rewrite (Hin H). reflexivity.
  - intros e He Ht H. unfold AppMore.statusText. rewrite (Hno H), He. simpl.
    rewrite Ht. reflexivity.
Qed.

End Status.

End PageFacts.

(** * More of the frame callback: blinking and mood expressions

    Blocks 1 and 2 of the callback (physics and the idle rotations of the
    bones) do not touch the expressions and are left out. *)

Module AvatarMore.
Import Avatar.

Definition vowels : list string := ["aa"; "ih"; "ou"; "ee"; "oh"].

(** [expressions] of the random-expression block. *)
Definition moods : list string := ["neutral"; "happy"; "relaxed"; "fun"].

(** [array[i]] for a number [i] that is an integer: [undefined] outside the
    array. *)
Definition item (l : list string) (i : Z) : option string :=
  if (i <? 0)%Z then None else l !! Z.to_nat i.

(** [expressionManager.setValue(name, v)]; a name that is [undefined]
    names no expression. *)
Definition setValue (name : option string) (v : Q) (m : gmap string Q) : gmap string Q :=
  match name with
  | Some k => <[k := v]> m
  | None => m
  end.

(** The refs of the component and the weights given to the expression
    manager of the loaded model ([None] when the model has none). *)
Record Face := {
  blinkTimer : Q;
  expressionTimer : Q;
  currentExpression : option string;
  expressions : option (gmap string Q)
}.

(** The component with a model just loaded. *)
Definition fresh (hasManager : bool) : Face :=
  {| blinkTimer := 0; expressionTimer := 0; currentExpression := Some "neutral";
     expressions := if hasManager then Some ∅ else None |}.

(** Block 4 of the frame callback; [random] is the value of
    [Math.random()].  The timer is computed on exact rationals, where the
    source rounds to a double: of the new timer only bounds that rounding
    keeps are used below. *)
Definition blinkStep (delta random expressionFactor : Q) (f : Face) : Face :=
  let t := (blinkTimer f - delta)%Q in
  if Qle_bool t 0 then
    {| blinkTimer := (random * 2 + 2)%Q;
       expressionTimer := expressionTimer f;
       currentExpression := currentExpression f;
       expressions :=
         option_map (setValue (Some "blink") (1 * Qmin 1 (expressionFactor + (1 # 5)))%Q)
                    (expressions f) |}
  else
    {| blinkTimer := t;
       expressionTimer := expressionTimer f;
       currentExpression := currentExpression f;
       expressions := expressions f |}.

(** The [setTimeout] callback of a blink, 150 ms later. *)
Definition blinkTimeout (f : Face) : Face :=
  {| blinkTimer := blinkTimer f;
     expressionTimer := expressionTimer f;
     currentExpression := currentExpression f;
     expressions := option_map (setValue (Some "blink") 0%Q) (expressions f) |}.

(** Block 5 of the frame callback; [random1] and [random2] are the values
    of its two [Math.random()] calls, in order. *)
Definition expressionStep (delta random1 random2 expressionFactor : Q) (f : Face) : Face :=
  let t := (expressionTimer f - delta)%Q in
  if Qle_bool t 0 then
    let next := item moods (Qfloor (random2 * inject_Z (Z.of_nat (length moods)))) in
    match expressions f with
    | Some m =>
        {| blinkTimer := blinkTimer f;
           expressionTimer := (random1 * 5 + 5)%Q;
           currentExpression := next;
           expressions :=
             Some (setValue next ((1 # 2) * expressionFactor)%Q
                     (setValue (currentExpression f) 0%Q m)) |}
    | None =>
        {| blinkTimer := blinkTimer f;
           expressionTimer := (random1 * 5 + 5)%Q;
           currentExpression := currentExpression f;
           expressions := None |}
    end
  else
    {| blinkTimer := blinkTimer f;
       expressionTimer := t;
       currentExpression := currentExpression f;
       expressions := expressions f |}.

(** What one frame gets from outside. *)
Record FrameInput := {
  time : Q;
  delta : Q;
  expressionFactor : Q;
  analyser : option AnalyserNode;
  random_blink : Q;
  random_timer : Q;
  random_pick : Q
}.

Section Frame.

Variable sin : Q -> Q.

(** Blocks 3, 4 and 5 of the frame callback, in order. *)
Definition frame (i : FrameInput) (f : Face) : Face :=
  let f3 :=
    {| blinkTimer := blinkTimer f;
       expressionTimer := expressionTimer f;
       currentExpression := currentExpression f;
       expressions :=
         frame_lipSync sin (time i) (expressionFactor i) (analyser i) (expressions f) |} in
  expressionStep (delta i) (random_timer i) (random_pick i) (expressionFactor i)
    (blinkStep (delta i) (random_blink i) (expressionFactor i) f3).

Definition frames (inputs : list FrameInput) (f : Face) : Face :=
  fold_left (fun f i => frame i f) inputs f.

End Frame.

End AvatarMore.

Module AvatarMoreFacts.
Import Avatar AvatarFacts AvatarMore.

(** ** The volume *)

Lemma at_index_nonneg (dataArray : list Byte.byte) (i : nat) : (0 <= at_index dataArray i)%Z.
Proof. unfold at_index. destruct (dataArray !! i); lia. Qed.

Lemma sumBins_ge (dataArray : list Byte.byte) (count : nat) :
  forall i sum, (sum <= sumBins dataArray i count sum)%Z.
Proof.
  induction count as [|c IH]; intros i sum; simpl; [lia|].
  pose proof (at_index_nonneg dataArray i). pose proof (IH (S i) (sum + at_index dataArray i)%Z).
  lia.
Qed.

Lemma inject_Z_nonneg (z : Z) : (0 <= z)%Z -> (0 <= inject_Z z)%Q.
Proof. intros H. change 0%Q with (inject_Z 0). rewrite <- Zle_Qle. exact H. Qed.

Lemma bins_ordered (n : Z) :
  (0 <= n)%Z ->
  (0 <= Qfloor (inject_Z n * (1 # 2)) - Qfloor (inject_Z n * (1 # 10)))%Z.
Proof.
  intros Hn.
  assert (H : (inject_Z n * (1 # 10) <= inject_Z n * (1 # 2))%Q).
  { pose proof (inject_Z_nonneg n Hn). lra. }
  apply Qfloor_resp_le in H. lia.
Qed.

(** [Math.min(1, average / 100)] *)
Definition rawVolume (analyser : AnalyserNode) : Q :=
  let dataArray := byteFrequencyData analyser in
  let binStart := Qfloor (inject_Z (frequencyBinCount analyser) * (1 # 10)) in
  let binEnd := Qfloor (inject_Z (frequencyBinCount analyser) * (1 # 2)) in
  let sum := sumBins dataArray (Z.to_nat binStart) (Z.to_nat (binEnd - binStart)) 0 in
  Qmin 1 (inject_Z sum / inject_Z (binEnd - binStart) / 100).

Lemma volume_rawVolume (expressionFactor : Q) (analyser : AnalyserNode) :
  volume expressionFactor analyser = (rawVolume analyser * expressionFactor)%Q.
Proof. reflexivity. Qed.

Lemma rawVolume_bounds (analyser : AnalyserNode) : (0 <= rawVolume analyser <= 1)%Q.
Proof.
  unfold rawVolume. split; [|apply Q.le_min_l].
  apply Q.min_glb; [lra|].
  set (n := frequencyBinCount analyser).
  assert (Hn : (0 <= n)%Z) by (unfold n, frequencyBinCount; lia).
  pose proof (bins_ordered n Hn) as Hc.
  set (c := (Qfloor (inject_Z n * (1 # 2)) - Qfloor (inject_Z n * (1 # 10)))%Z) in *.
  pose proof (sumBins_ge (byteFrequencyData analyser) (Z.to_nat c)
                (Z.to_nat (Qfloor (inject_Z n * (1 # 10)))) 0) as Hs.
  set (s := sumBins _ _ _ _) in *.
  assert (H0 : (0 <= inject_Z s)%Q) by (apply inject_Z_nonneg; exact Hs).
  assert (H1 : (0 <= / inject_Z c)%Q)
    by (apply Qinv_le_0_compat; apply inject_Z_nonneg; exact Hc).
  unfold Qdiv.
  apply Qmult_le_0_compat; [apply Qmult_le_0_compat; assumption|].
  apply Qinv_le_0_compat. lra.
Qed.

(** X16. For an expression factor that is not negative, the scaled
    volume lies between 0 and the factor, whatever the analyser holds. *)
Theorem volume_within_factor (expressionFactor : Q) (analyser : AnalyserNode) :
  (0 <= expressionFactor)%Q ->
  (0 <= volume expressionFactor analyser <= expressionFactor)%Q.
Proof.
  intros Hf. rewrite volume_rawVolume.
  destruct (rawVolume_bounds analyser) as [H0 H1].
  split; [apply Qmult_le_0_compat; assumption|].
  apply Qle_trans with (1 * expressionFactor)%Q;
    [apply Qmult_le_compat_r; assumption | rewrite Qmult_1_l; apply Qle_refl].
Qed.

Section LipSync.

Variable sin : Q -> Q.

(** X17. With an expression factor of at most 0.05 (zero on the
    slider) the mouth never opens: lip sync only resets the vowels, however
    loud the audio. *)
Theorem low_factor_keeps_mouth_shut (time expressionFactor : Q) (analyser : AnalyserNode)
    (m : gmap string Q) :
  (expressionFactor <= 1 # 20)%Q ->
  lipSync sin time expressionFactor analyser m = resetVowels m.
Proof.
  intros Hf. unfold lipSync.
  assert (Hv : (volume expressionFactor analyser <= 1 # 20)%Q).
  { rewrite volume_rawVolume. destruct (rawVolume_bounds analyser) as [H0 H1].
    destruct (Qlt_le_dec expressionFactor 0) as [Hneg|Hpos].
    - apply Qle_trans with 0%Q; [|lra].
      rewrite Qmult_comm.
      apply Qle_trans with (0 * rawVolume analyser)%Q;
        [apply Qmult_le_compat_r; [lra | exact H0] | rewrite Qmult_0_l; apply Qle_refl].
    - apply Qle_trans with expressionFactor; [|exact Hf].
      apply Qle_trans with (1 * expressionFactor)%Q;
        [apply Qmult_le_compat_r; assumption | rewrite Qmult_1_l; apply Qle_refl]. }
  apply Qgt_bool_false in Hv. rewrite Hv. reflexivity.
Qed.

Lemma sumBins_silence (dataArray : list Byte.byte) (count : nat) :
  Forall (fun b => b = Byte.x00) dataArray ->
  forall i sum, sumBins dataArray i count sum = sum.
Proof.
  intros Hz. induction count as [|c IH]; intros i sum; simpl; [reflexivity|].
  rewrite IH. unfold at_index.
  destruct (dataArray !! i) as [b|] eqn:Hb; [|lia].
  rewrite Forall_lookup in Hz. rewrite (Hz i b Hb). simpl. lia.
Qed.

(** X18. Silence closes the mouth: when every frequency bin reads zero,
    lip sync only resets the vowels, whatever the expression factor. *)
Theorem silence_keeps_mouth_shut (time expressionFactor : Q) (analyser : AnalyserNode)
    (m : gmap string Q) :
  Forall (fun b => b = Byte.x00) (byteFrequencyData analyser) ->
  lipSync sin time expressionFactor analyser m = resetVowels m.
Proof.
  intros Hz. unfold lipSync.
  assert (Hv : (volume expressionFactor analyser <= 1 # 20)%Q).
  { rewrite volume_rawVolume.
    assert (Hr : (rawVolume analyser == 0)%Q).
    { apply Qle_antisym; [|apply rawVolume_bounds].
      unfold rawVolume. rewrite (sumBins_silence _ _ Hz).
      eapply Qle_trans; [apply Q.le_min_r|].
      unfold Qdiv. rewrite !Qmult_0_l. apply Qle_refl. }
    rewrite Hr, Qmult_0_l. lra. }
  apply Qgt_bool_false in Hv. rewrite Hv. reflexivity.
Qed.

Lemma vowel_cases (k : string) :
  k ∈ vowels <-> k = "aa" \/ k = "ih" \/ k = "ou" \/ k = "ee" \/ k = "oh".
Proof.
  unfold vowels. rewrite !elem_of_cons, elem_of_nil. tauto.
Qed.

Lemma mood_cases (k : string) :
  k ∈ moods <-> k = "neutral" \/ k = "happy" \/ k = "relaxed" \/ k = "fun".
Proof.
  unfold moods. rewrite !elem_of_cons, elem_of_nil. tauto.
Qed.

Lemma resetVowels_other (m : gmap string Q) (k : string) :
  k ∉ vowels -> resetVowels m !! k = m !! k.
Proof.
  intros Hk. rewrite vowel_cases in Hk. unfold resetVowels.
  rewrite !lookup_insert_ne; [reflexivity|..]; intros <-; tauto.
Qed.

(** Lip sync writes the vowels and nothing else. *)
Lemma lipSync_other (time expressionFactor : Q) (analyser : AnalyserNode)
    (m : gmap string Q) (k : string) :
  k ∉ vowels -> lipSync sin time expressionFactor analyser m !! k = m !! k.
Proof.
  intros Hk. pose proof Hk as Hk'. rewrite vowel_cases in Hk'. unfold lipSync.
  destruct (Qgt_bool _ _); [|apply resetVowels_other; exact Hk].
  destruct (Qgt_bool _ _); [|destruct (Qlt_bool _ _)];
    rewrite ?lookup_insert_ne by (intros <-; tauto);
    apply resetVowels_other; exact Hk.
Qed.

Lemma resetVowels_absorbs (m1 m2 : gmap string Q) :
  (forall k, k ∉ vowels -> m1 !! k = m2 !! k) ->
  resetVowels m1 = resetVowels m2.
Proof.
  intros H. apply map_eq. intros k.
  destruct (decide (k ∈ vowels)) as [Hin|Hout].
  - apply vowel_cases in Hin. unfold resetVowels.
    destruct Hin as [-> | [-> | [-> | [-> | ->]]]];
      repeat first [ rewrite lookup_insert_eq | rewrite lookup_insert_ne by discriminate ];
      reflexivity.
  - rewrite !resetVowels_other by exact Hout. apply H. exact Hout.
Qed.

(** X19. No vowel lingers from an earlier frame: the expressions after
    the lip sync of a frame are the same whether or not an earlier lip
    sync, for any time, audio and factor, ran before on the same
    weights. *)
Theorem lipSync_forgets_earlier_frames (time time' expressionFactor expressionFactor' : Q)
    (analyser analyser' : AnalyserNode) (m : gmap string Q) :
  lipSync sin time expressionFactor analyser
    (lipSync sin time' expressionFactor' analyser' m) =
  lipSync sin time expressionFactor analyser m.
Proof.
  assert (H : resetVowels (lipSync sin time' expressionFactor' analyser' m) = resetVowels m)
    by (apply resetVowels_absorbs; intros k Hk; apply lipSync_other; exact Hk).
  unfold lipSync at 1 3. rewrite H. reflexivity.
Qed.

End LipSync.

(** ** Blinking and moods *)

(** The current mood is one of the four, or undefined. *)
Definition mood_or_none (c : option string) : Prop :=
  c = None \/ exists k, c = Some k /\ k ∈ moods.

(** Every mood but the current one has no weight or weight zero. *)
Definition one_mood (f : Face) : Prop :=
  mood_or_none (currentExpression f) /\
  forall m k, expressions f = Some m -> k ∈ moods -> currentExpression f <> Some k ->
              m !! k = None \/ m !! k = Some 0%Q.

Lemma mood_not_vowel (k : string) : k ∈ moods -> k ∉ vowels.
Proof.
  rewrite mood_cases, vowel_cases.
  intros [-> | [-> | [-> | ->]]] [H|[H|[H|[H|H]]]]; discriminate.
Qed.

Lemma item_mood (z : Z) : mood_or_none (item moods z).
Proof.
  unfold item, mood_or_none. destruct (z <? 0)%Z; [left; reflexivity|].
  destruct (moods !! Z.to_nat z) as [k|] eqn:Hk; [right|left; reflexivity].
  exists k. split; [reflexivity|]. eapply list_elem_of_lookup_2. exact Hk.
Qed.

Lemma blinkStep_one_mood (delta random expressionFactor : Q) (f : Face) :
  one_mood f -> one_mood (blinkStep delta random expressionFactor f).
Proof.
  intros [Hc Hm]. unfold blinkStep. destruct (Qle_bool _ _); split; simpl; auto.
  intros m k He Hk Hne.
  destruct (expressions f) as [m0|] eqn:Hf; [|discriminate].
  simpl in He. inversion He; subst m. simpl.
  rewrite lookup_insert_ne
    by (intros <-; apply mood_cases in Hk; destruct Hk as [H|[H|[H|H]]]; discriminate).
  eauto.
Qed.

Lemma expressionStep_one_mood (delta random1 random2 expressionFactor : Q) (f : Face) :
  one_mood f -> one_mood (expressionStep delta random1 random2 expressionFactor f).
Proof.
  intros [Hc Hm]. unfold expressionStep.
  destruct (Qle_bool _ _); [|split; simpl; auto].
  destruct (expressions f) as [m0|] eqn:Hf; [|split; simpl; auto; discriminate].
  split; simpl; [apply item_mood|].
  intros m k He Hk Hne. inversion He; subst m. clear He.
  assert (Hin : setValue (currentExpression f) 0%Q m0 !! k = None \/
                setValue (currentExpression f) 0%Q m0 !! k = Some 0%Q).
  { destruct (currentExpression f) as [c|] eqn:Hcur; simpl.
    - destruct (decide (c = k)) as [->|Hck].
      + right. apply lookup_insert_eq.
      + rewrite lookup_insert_ne by exact Hck. apply (Hm m0 k eq_refl Hk). congruence.
    - apply (Hm m0 k eq_refl Hk). discriminate. }
  destruct (item moods _) as [n|]; simpl; [|exact Hin].
  rewrite lookup_insert_ne by congruence. exact Hin.
Qed.

Section Frames.

Variable sin : Q -> Q.

Lemma frame_one_mood (i : FrameInput) (f : Face) :
  one_mood f -> one_mood (frame sin i f).
Proof.
  intros [Hc Hm]. unfold frame.
  apply expressionStep_one_mood, blinkStep_one_mood.
  split; simpl; [exact Hc|].
  intros m k He Hk Hne. unfold frame_lipSync in He.
  destruct (analyser i) as [a|], (expressions f) as [m0|] eqn:Hf; try discriminate;
    inversion He; subst m.
  - rewrite lipSync_other by (apply mood_not_vowel; exact Hk). eauto.
  - eauto.
Qed.

(** X20. At most one mood is ever on: starting from a face where every
    mood other than the current one has weight zero or none (as when the
    model has just loaded), after any number of frames, whatever the
    audio, the timers and the random draws, every mood other than the
    current one still has weight zero or none, and the current one is one of
    the four moods or undefined. *)
Theorem at_most_one_mood (inputs : list FrameInput) (f : Face) :
  one_mood f ->
  mood_or_none (currentExpression (frames sin inputs f)) /\
  forall m k, expressions (frames sin inputs f) = Some m -> k ∈ moods ->
              currentExpression (frames sin inputs f) <> Some k ->
              m !! k = None \/ m !! k = Some 0%Q.
Proof.
  revert f. induction inputs as [|i inputs IH]; intros f Hf; [exact Hf|].
  simpl. apply IH. apply frame_one_mood. exact Hf.
Qed.

(** X21. Blinking and the mood change of a frame leave the vowels as
    lip sync set them: when the current mood is one of the four or
    undefined, each vowel has after the whole frame the weight it has after
    the lip sync of that frame. *)
Theorem frame_keeps_vowels (i : FrameInput) (f : Face) (m : gmap string Q) (k : string) :
  mood_or_none (currentExpression f) ->
  expressions f = Some m ->
  k ∈ vowels ->
  exists m',
    expressions (frame sin i f) = Some m' /\
    m' !! k =
      match analyser i with
      | Some a => lipSync sin (time i) (expressionFactor i) a m !! k
      | None => m !! k
      end.
Proof.
  intros Hc Hf Hk. unfold frame, frame_lipSync. rewrite Hf.
  set (m3 := match analyser i with
             | Some a => lipSync sin (time i) (expressionFactor i) a m
             | None => m
             end).
  assert (Hm3 : match analyser i with
                | Some a => Some (lipSync sin (time i) (expressionFactor i) a m)
                | None => Some m
                end = Some m3) by (unfold m3; destruct (analyser i); reflexivity).
  rewrite Hm3.
  assert (Hkb : k <> "blink")
    by (apply vowel_cases in Hk; destruct Hk as [-> | [-> | [-> | [-> | ->]]]]; discriminate).
  assert (Hset : forall c v x, mood_or_none c -> setValue c v x !! k = x !! k).
  { intros c v x [-> | (n & -> & Hn)]; simpl; [reflexivity|].
    apply lookup_insert_ne. intros <-. apply (mood_not_vowel n Hn). exact Hk. }
  replace (m3 !! k) with
    (match analyser i with
     | Some a => lipSync sin (time i) (expressionFactor i) a m !! k
     | None => m !! k
     end) by (unfold m3; destruct (analyser i); reflexivity).
  fold m3.
  replace (match analyser i with
           | Some a => lipSync sin (time i) (expressionFactor i) a m !! k
           | None => m !! k
           end) with (m3 !! k) by (unfold m3; destruct (analyser i); reflexivity).
  unfold blinkStep, expressionStep; simpl.
  destruct (Qle_bool (blinkTimer f - delta i) 0); simpl;
    destruct (Qle_bool (expressionTimer f - delta i) 0); simpl;
    eexists; (split; [reflexivity|]);
    rewrite ?Hset by (exact Hc || apply item_mood);
    rewrite ?lookup_insert_ne by congruence; reflexivity.
Qed.

End Frames.

(** X22. When a blink fires on a model with an expression manager, for
    an expression factor that is not negative and a random draw in [0, 1):
    the blink weight is at least 0.2 and at most 1, and the next blink is
    due in at least 2 and at most 4 seconds.  The bounds are the ones that
    rounding to a double keeps: the sum [random * 2 + 2] can round up to 4,
    never beyond. *)
Theorem blink_is_visible (delta random expressionFactor : Q) (f : Face) (m : gmap string Q) :
  (0 <= expressionFactor)%Q ->
  (0 <= random < 1)%Q ->
  (blinkTimer f - delta <= 0)%Q ->
  expressions f = Some m ->
  exists m' b,
    expressions (blinkStep delta random expressionFactor f) = Some m' /\
    m' !! "blink" = Some b /\
    (1 # 5 <= b <= 1)%Q /\
    (2 <= blinkTimer (blinkStep delta random expressionFactor f) <= 4)%Q.
Proof.
  intros Hf [Hr0 Hr1] Ht Hm. unfold blinkStep.
  apply Qle_bool_iff in Ht. rewrite Ht, Hm. simpl.
  eexists. eexists. split; [reflexivity|]. split; [apply lookup_insert_eq|].
  split; [|split; lra].
  rewrite Qmult_1_l. split.
  - apply Q.min_glb; lra.
  - apply Q.le_min_l.
Qed.

End AvatarMoreFacts.

(** * The further properties on concrete runs *)

Module MoreScenarios.
Import GeminiLive GeminiLiveFacts GeminiLiveMore Scenarios.

(** Two fragments with, between them, audio that does not decode. *)
Definition bumpy_trace : list Event :=
  [ EvOpen;
    EvMessage 0%Q {| inlineData := Some "AAAAAAAA"; interrupted := false |};
    EvMessage (1 # 2)%Q {| inlineData := Some "!"; interrupted := false |};
    EvEnded 0;
    EvMessage 1%Q {| inlineData := Some "BBBB"; interrupted := false |};
    EvCleanup ].

Definition audio_and_interruption : LiveServerMessage :=
  {| inlineData := Some "CCCC"; interrupted := true |}.

Definition garbled_and_interruption : LiveServerMessage :=
  {| inlineData := Some "!"; interrupted := true |}.

(** The application in a call started in upload mode, and the hook after
    the commit for it. *)
Definition calling : App.World := App.set_step App.call (AppScenarios.ready App.upload).

Definition hook_in_call : World := exec (commit granted (AppMore.hookProps calling)) initial.

(** X2 on [bumpy_trace]. *)
Lemma clock_never_goes_back_witness :
  (nextStartTimeRef (refs initial) <=
   nextStartTimeRef
     (refs (run demo_createPcmBlob demo_base64ToUint8Array demo_decodeAudioData
              demo_props bumpy_trace initial)))%Q.
Proof.
  apply (clock_never_goes_back demo_createPcmBlob demo_base64ToUint8Array
           demo_decodeAudioData demo_props bumpy_trace initial).
  - intros s buf H. unfold decoded, demo_base64ToUint8Array, demo_decodeAudioData in H.
    destruct (String.eqb s "!"); inversion H. unfold Qle; simpl. lia.
  - repeat constructor.
Defined.

(** X3 on [speech_trace], from the first render. *)
Lemma active_sources_were_started_witness :
  sourcesRef (refs (run demo_createPcmBlob demo_base64ToUint8Array demo_decodeAudioData
                      demo_props speech_trace initial)) ⊆
  started (run demo_createPcmBlob demo_base64ToUint8Array demo_decodeAudioData
             demo_props speech_trace initial).
Proof.
  apply (active_sources_were_started demo_createPcmBlob demo_base64ToUint8Array
           demo_decodeAudioData demo_props speech_trace initial).
  apply empty_subseteq.
Defined.

(** X4 on a message with audio and the interruption signal, while three
    sources are active. *)
Lemma audio_with_interruption_is_stopped_witness :
  let w' := exec (onmessage demo_base64ToUint8Array demo_decodeAudioData demo_props 2%Q
                    audio_and_interruption) three_active in
  onmessage demo_base64ToUint8Array demo_decodeAudioData demo_props 2%Q
    audio_and_interruption three_active = (Ok tt, w') /\
  playback (platform w') =
    playback (platform three_active) ++
      [{| source := created (platform three_active);
          startAt := Qmax (nextStartTimeRef (refs three_active)) 2;
          length_s := duration {| duration := 4 # 48000 |} |}] /\
  created (platform three_active) ∈ stopped (platform w') /\
  sourcesRef (refs w') = ∅ /\
  nextStartTimeRef (refs w') = 0%Q.
Proof.
  apply (audio_with_interruption_is_stopped demo_base64ToUint8Array demo_decodeAudioData
           demo_props 2%Q audio_and_interruption "CCCC" {| duration := 4 # 48000 |}
           three_active); reflexivity.
Defined.

(** X5 on a message whose audio is not base64. *)
Lemma undecodable_audio_rejects_witness :
  let w' := exec (onmessage demo_base64ToUint8Array demo_decodeAudioData demo_props 2%Q
                    garbled_and_interruption) three_active in
  (exists e, onmessage demo_base64ToUint8Array demo_decodeAudioData demo_props 2%Q
               garbled_and_interruption three_active = (Throw e, w')) /\
  playback (platform w') = playback (platform three_active) /\
  sourcesRef (refs w') = sourcesRef (refs three_active) /\
  stopped (platform w') = stopped (platform three_active) /\
  (nextStartTimeRef (refs w') = nextStartTimeRef (refs three_active) \/
   nextStartTimeRef (refs w') = Qmax (nextStartTimeRef (refs three_active)) 2) /\
  (onSpeakingChanged demo_props = true -> speaking (platform w') = true).
Proof.
  apply (undecodable_audio_rejects demo_base64ToUint8Array demo_decodeAudioData
           demo_props 2%Q garbled_and_interruption "!" three_active); reflexivity.
Defined.

(** X6 on a restart while the scheduled end stands at 1.5 s: the first
    fragment of the new session, arriving at 0 s, is scheduled at 1.5 s. *)
Lemma restart_keeps_playback_clock_witness :
  let w0 := exec (initSession granted demo_props) (exec cleanup three_active) in
  nextStartTimeRef (refs w0) = nextStartTimeRef (refs three_active) /\
  exists e,
    last (playback (platform
            (exec (onmessage demo_base64ToUint8Array demo_decodeAudioData demo_props 0%Q
                     {| inlineData := Some "AAAA"; interrupted := false |}) w0))) = Some e /\
    startAt e = Qmax (nextStartTimeRef (refs three_active)) 0.
Proof.
  apply (restart_keeps_playback_clock demo_base64ToUint8Array demo_decodeAudioData
           granted demo_props 0%Q {| inlineData := Some "AAAA"; interrupted := false |}
           "AAAA" {| duration := 4 # 48000 |} three_active); reflexivity.
Defined.

Example restart_schedules_after_old_tail :
  map startAt
    (playback (platform
       (exec (onmessage demo_base64ToUint8Array demo_decodeAudioData demo_props 0%Q
                {| inlineData := Some "AAAA"; interrupted := false |})
          (exec (initSession granted demo_props) (exec cleanup three_active))))) =
    [ (3 # 2)%Q ].
Proof. reflexivity. Qed.

(** X11 on the application as first rendered. *)
Lemma no_session_outside_call_witness :
  let h' := exec (commit granted (AppMore.hookProps AppScenarios.initial)) initial in
  connects (platform h') = connects (platform initial) /\
  sessionPromiseRef (refs h') = sessionPromiseRef (refs initial).
Proof.
  apply (PageFacts.no_session_outside_call granted AppScenarios.initial initial).
  left. discriminate.
Defined.


(** X13 on [calling]. *)
Lemma call_controls_leave_session_witness :
  commit granted (AppMore.hookProps (AppMore.setMicOn false calling)) hook_in_call =
    (Ok tt, hook_in_call) /\
  commit granted (AppMore.hookProps (AppMore.setShowSettings true calling)) hook_in_call =
    (Ok tt, hook_in_call) /\
  commit granted (AppMore.hookProps (AppMore.setSelectedVideoDevice "cam2" calling))
    hook_in_call = (Ok tt, hook_in_call) /\
  commit granted (AppMore.hookProps (AppMore.setExpressionFactor 1%Q calling)) hook_in_call =
    (Ok tt, hook_in_call).
Proof.
  apply (PageFacts.call_controls_leave_session granted calling hook_in_call
           false "cam2" 1%Q).
  reflexivity.
Defined.


End MoreScenarios.

Module AppMoreScenarios.
Import App AppMore AppMoreFacts.

(** The user fills the form, starts with a generated background, clears
    the key while the image is painted; the image arrives. *)
Definition key_cleared_while_generating : list Action :=
  [ TypeApiKey "key"; ChooseVrm (Some "blob:model"); PickScenario "Casual chat";
    PickBgMode generate; ClickStart; ClickStart; TypeApiKey "";
    GenerationSettles (Some (Some "AAAA")) ].

Definition first_render : Ui := {| world := AppScenarios.initial; settled := 0 |}.

(** X9 on a generation that fails. *)
Lemma generation_outcomes_witness :
  generateBackground_settled None (handleStart (AppScenarios.ready generate)) =
    request (backgroundPrompt (scenario (state (AppScenarios.ready generate))))
      (AppScenarios.ready generate).
Proof.
  apply (generation_outcomes (AppScenarios.ready generate) None); reflexivity.
Defined.

(** X10 on [key_cleared_while_generating]. *)
Lemma call_view_has_a_model_witness :
  let u' := ui_run key_cleared_while_generating first_render in
  (step (state (world u')) <> setup -> truthy_opt (vrmUrl (state (world u'))) = true) /\
  length (requests (world u')) =
    settled u' + match step (state (world u')) with generating => 1 | _ => 0 end.
Proof.
  apply (call_view_has_a_model key_cleared_while_generating first_render).
  - split; [intros H; exfalso; apply H; reflexivity | reflexivity].
  - repeat constructor.
Defined.

(** The run ends in the call step with an empty key (the second click on
    Start found the button disabled): the guard of the hook's effect is
    what keeps a session from being opened then. *)
Example call_with_empty_key :
  step (state (world (ui_run key_cleared_while_generating first_render))) = call /\
  apiKey (state (world (ui_run key_cleared_while_generating first_render))) = "" /\
  length (requests (world (ui_run key_cleared_while_generating first_render))) = 1.
Proof. repeat split. Qed.

End AppMoreScenarios.

Module AvatarMoreScenarios.
Import Avatar AvatarFacts AvatarMore AvatarMoreFacts AvatarScenarios.

(** 16 bins, all at zero. *)
Definition silent : AnalyserNode := {| byteFrequencyData := repeat Byte.x00 16 |}.

Definition loud_frame : FrameInput :=
  {| time := 0; delta := 1 # 60; expressionFactor := 3 # 5; analyser := Some loud;
     random_blink := 1 # 2; random_timer := 1 # 2; random_pick := 3 # 5 |}.

Definition late_frame : FrameInput :=
  {| time := 20; delta := 20; expressionFactor := 3 # 5; analyser := Some quiet;
     random_blink := 1 # 4; random_timer := 1 # 4; random_pick := 1 # 10 |}.

(** X16 on the loud analyser. *)
Lemma volume_within_factor_witness : (0 <= volume (3 # 5) loud <= 3 # 5)%Q.
Proof. apply (volume_within_factor (3 # 5) loud). discriminate. Defined.

(** X17 on the loud analyser with the slider at zero. *)
Lemma low_factor_keeps_mouth_shut_witness :
  lipSync demo_sin 0 0 loud ∅ = resetVowels ∅.
Proof. apply (low_factor_keeps_mouth_shut demo_sin 0 0 loud ∅). discriminate. Defined.

(** X18 on sixteen silent bins. *)
Lemma silence_keeps_mouth_shut_witness :
  lipSync demo_sin 0 (3 # 2) silent ∅ = resetVowels ∅.
Proof.
  apply (silence_keeps_mouth_shut demo_sin 0 (3 # 2) silent ∅).
  repeat constructor.
Defined.

Lemma fresh_one_mood : one_mood (fresh true).
Proof.
  split.
  - right. exists "neutral". split; [reflexivity|]. apply mood_cases. left. reflexivity.
  - intros m k Hm _ _. inversion Hm. left. apply lookup_empty.
Qed.

(** X20 on two frames from a model just loaded. *)
Lemma at_most_one_mood_witness :
  mood_or_none (currentExpression (frames demo_sin [loud_frame; late_frame] (fresh true))) /\
  forall m k,
    expressions (frames demo_sin [loud_frame; late_frame] (fresh true)) = Some m ->
    k ∈ moods ->
    currentExpression (frames demo_sin [loud_frame; late_frame] (fresh true)) <> Some k ->
    m !! k = None \/ m !! k = Some 0%Q.
Proof.
  apply (at_most_one_mood demo_sin [loud_frame; late_frame] (fresh true)).
  exact fresh_one_mood.
Defined.

(** X21 on the vowel 'aa' in a loud frame. *)
Lemma frame_keeps_vowels_witness :
  exists m',
    expressions (frame demo_sin loud_frame (fresh true)) = Some m' /\
    m' !! "aa" =
      match analyser loud_frame with
      | Some a => lipSync demo_sin (time loud_frame) (expressionFactor loud_frame) a ∅ !! "aa"
      | None => (∅ : gmap string Q) !! "aa"
      end.
Proof.
  apply (frame_keeps_vowels demo_sin loud_frame (fresh true) ∅ "aa").
  - apply fresh_one_mood.
  - reflexivity.
  - apply vowel_cases. left. reflexivity.
Defined.

(** X22 on the first frame of a model just loaded. *)
Lemma blink_is_visible_witness :
  exists m' b,
    expressions (blinkStep (1 # 60) (1 # 2) (3 # 5) (fresh true)) = Some m' /\
    m' !! "blink" = Some b /\
    (1 # 5 <= b <= 1)%Q /\
    (2 <= blinkTimer (blinkStep (1 # 60) (1 # 2) (3 # 5) (fresh true)) <= 4)%Q.
Proof.
  apply (blink_is_visible (1 # 60) (1 # 2) (3 # 5) (fresh true) ∅).
  - discriminate.
  - split; [discriminate | reflexivity].
  - discriminate.
  - reflexivity.
Defined.

(** The weight of an expression, if any. *)
Definition weight (f : Face) (name : string) : option Q :=
  match expressions f with
  | Some m => m !! name
  | None => None
  end.

(** After the two frames the mood drawn in the second one is on at half the
    expression factor, the one drawn in the first is off again, and the
    eyes are closing. *)
Example two_frames :
  currentExpression (frames demo_sin [loud_frame; late_frame] (fresh true)) = Some "neutral" /\
  weight (frames demo_sin [loud_frame; late_frame] (fresh true)) "neutral" = Some (3 # 10)%Q /\
  weight (frames demo_sin [loud_frame; late_frame] (fresh true)) "relaxed" = Some 0%Q /\
  weight (frames demo_sin [loud_frame; late_frame] (fresh true)) "fun" = None /\
  weight (frames demo_sin [loud_frame; late_frame] (fresh true)) "blink" = Some (20 # 25)%Q.
Proof. repeat split; vm_compute; reflexivity. Qed.

End AvatarMoreScenarios.
